(** * validate_flags.py: resource validation for CircleFlagsKit

    A shallow embedding of [Scripts/validate_flags.py] and the properties
    of its validation pipeline.

    Conventions of the embedding.
    - A Python [str] is a [string]; its characters are the code points
      0..255 (the [ascii] type read as Latin-1).  [str.strip],
      [str.lower] and [str.splitlines] are written out for that range.
    - [set[str]] is [gset string], [dict[str, Path]] is [gmap string Path].
    - A [Path] below the resources directory is identified with its final
      component, so [Path] equality is equality of names.
    - The file system is read through a record of observations
      ([exists], [is_dir], [iterdir], [is_file], [read_text]).
    - [main] is embedded from the point where [argparse] has produced the
      argument namespace (line 124 of the script onwards). *)

From Stdlib Require Import Ascii String List ZArith Lia DecimalString.
From stdpp Require Import gmap strings list fin_maps sorting.

Local Open Scope string_scope.

(* ===================================================================== *)
(** ** Characters and the [str] methods used by the script               *)
(* ===================================================================== *)

Module Str.

Definition code (c : ascii) : N := N_of_ascii c.

Definition in_range (lo hi : N) (c : ascii) : bool :=
  ((lo <=? code c) && (code c <=? hi))%N.

(** The line feed character, U+000A. *)
Definition LF : ascii := ascii_of_N 10.

(** [str.isspace] on one code point below 256: U+0009..U+000D,
    U+001C..U+0020, U+0085 and U+00A0. *)
Definition is_space (c : ascii) : bool :=
  in_range 9 13 c || in_range 28 32 c
  || (code c =? 133)%N || (code c =? 160)%N.

(** [str.lower] on one code point below 256: A..Z and the Latin-1
    capitals U+00C0..U+00DE (U+00D7, the multiplication sign, apart)
    move up by 32; every other code point is unchanged. *)
Definition lower_char (c : ascii) : ascii :=
  if in_range 65 90 c
     || (in_range 192 222 c && negb (code c =? 215)%N)
  then ascii_of_N (code c + 32)
  else c.

Fixpoint lower (s : string) : string :=
  match s with
  | EmptyString => EmptyString
  | String c s' => String (lower_char c) (lower s')
  end.

Fixpoint lstrip (s : string) : string :=
  match s with
  | EmptyString => EmptyString
  | String c s' => if is_space c then lstrip s' else s
  end.

(** [rstrip] drops the longest suffix made of white space. *)
Fixpoint rstrip (s : string) : string :=
  match s with
  | EmptyString => EmptyString
  | String c s' =>
      match rstrip s' with
      | EmptyString => if is_space c then EmptyString else String c EmptyString
      | r => String c r
      end
  end.

(** [s.strip()] *)
Definition strip (s : string) : string := rstrip (lstrip s).

(** [s.startswith(p)] *)
Fixpoint startswith (p s : string) : bool :=
  match p, s with
  | EmptyString, _ => true
  | String a p', String b s' => Ascii.eqb a b && startswith p' s'
  | String _ _, EmptyString => false
  end.

(** [sep.join(l)] *)
Fixpoint join (sep : string) (l : list string) : string :=
  match l with
  | [] => ""
  | [x] => x
  | x :: l' => x ++ sep ++ join sep l'
  end.

(** [str(n)] for a non-negative [int]. *)
Definition of_nat (n : nat) : string :=
  NilEmpty.string_of_uint (Nat.to_uint n).

(** A line boundary of [str.splitlines] below U+0100: LF, VT, FF, CR,
    FS, GS, RS and NEL. *)
Definition is_linebreak (c : ascii) : bool :=
  in_range 10 13 c || in_range 28 30 c || (code c =? 133)%N.

Definition CR : ascii := ascii_of_N 13.

(** [s.splitlines()]: [cur] is the line read so far.  CR LF counts as
    one boundary, and a final boundary opens no empty last line. *)
Fixpoint splitlines_from (cur : string) (s : string) : list string :=
  match s with
  | EmptyString =>
      match cur with EmptyString => [] | _ => [cur] end
  | String c s' =>
      if is_linebreak c then
        cur ::
          match s' with
          | String d s'' =>
              if Ascii.eqb c CR && Ascii.eqb d LF
              then splitlines_from "" s''
              else splitlines_from "" s'
          | EmptyString => []
          end
      else splitlines_from (cur ++ String c "") s'
  end.

Definition splitlines (s : string) : list string := splitlines_from "" s.

(** Order of [str] values: lexicographic on code points. *)
Definition le (a b : string) : Prop := String.leb a b = true.

#[global] Instance le_dec : RelDecision le :=
  λ a b, decide (String.leb a b = true).

End Str.

(** ** Normalisation: [code.strip().lower()] *)

Definition normalize (code : string) : string := Str.lower (Str.strip code).

(* ===================================================================== *)
(** ** The two patterns, as [re.Pattern.match] decides them              *)
(* ===================================================================== *)

Module Re.

Definition is_lower_az (c : ascii) : bool := Str.in_range 97 122 c.
Definition is_digit (c : ascii) : bool := Str.in_range 48 57 c.
Definition is_hyphen (c : ascii) : bool := (Str.code c =? 45)%N.

(** [[a-z0-9]] and [[a-z0-9\-]] *)
Definition class_first (c : ascii) : bool := is_lower_az c || is_digit c.
Definition class_rest (c : ascii) : bool :=
  is_lower_az c || is_digit c || is_hyphen c.

(** The anchor [$] of a pattern compiled without flags, tried on what is
    left of the subject: it holds at the end of the string and also
    just before a line feed that is the last character. *)
Definition at_dollar (rest : string) : bool :=
  match rest with
  | EmptyString => true
  | String c EmptyString => Ascii.eqb c Str.LF
  | _ => false
  end.

(** [ALPHA2_RE = re.compile(r"^[a-z]{2}$")], and [ALPHA2_RE.match(s)]
    read as a truth value. *)
Definition ALPHA2_RE_match (s : string) : bool :=
  match s with
  | String a (String b rest) => is_lower_az a && is_lower_az b && at_dollar rest
  | _ => false
  end.

(** [[a-z0-9\-]*$]: either stop here on [$], or take one more character
    of the class. *)
Fixpoint star_rest_dollar (s : string) : bool :=
  at_dollar s
  || match s with
     | String c s' => class_rest c && star_rest_dollar s'
     | EmptyString => false
     end.

(** [DEFAULT_PNG_RE = re.compile(r"^[a-z0-9][a-z0-9\-]*$")] *)
Definition DEFAULT_PNG_RE_match (s : string) : bool :=
  match s with
  | String a rest => class_first a && star_rest_dollar rest
  | EmptyString => false
  end.

End Re.

(* ===================================================================== *)
(** ** Paths and the observed file system                                *)
(* ===================================================================== *)

Abbreviation Path := string (only parsing).

Module Pathlib.

(** [p.name] *)
Definition name (p : Path) : string := p.

(** [name.rfind('.')], [None] standing for -1. *)
Fixpoint rfind_dot (s : string) : option nat :=
  match s with
  | EmptyString => None
  | String c s' =>
      match rfind_dot s' with
      | Some i => Some (S i)
      | None => if Ascii.eqb c "." then Some 0 else None
      end
  end.

(** The test [0 < i < len(name) - 1] of [suffix] and [stem]. *)
Definition splits_at (nm : string) : option nat :=
  match rfind_dot nm with
  | Some i =>
      if ((0 <? i) && (i <? String.length nm - 1))%nat then Some i else None
  | None => None
  end.

(** [p.suffix]: [name[i:]] or the empty string. *)
Definition suffix (p : Path) : string :=
  match splits_at (name p) with
  | Some i => substring i (String.length (name p) - i)%nat (name p)
  | None => ""
  end.

(** [p.stem]: [name[:i]] or the whole name. *)
Definition stem (p : Path) : string :=
  match splits_at (name p) with
  | Some i => substring 0 i (name p)
  | None => name p
  end.

End Pathlib.

(** What the script can observe of an existing resources directory.
    Listing it is taken to succeed: a directory whose [iterdir] raises
    (no permission to read it) is outside this model. *)
Record Directory := {
  iterdir : list Path;            (* resources_dir.iterdir() *)
  is_file : Path → bool;          (* p.is_file() *)
  child_exists : string → bool    (* (resources_dir / s).exists() *)
}.

Inductive ResourcesState :=
| ResAbsent                       (* exists() is False *)
| ResNotADirectory                (* exists(), not is_dir() *)
| ResDirectory (d : Directory).

Inductive AllowlistState :=
| AllowAbsent                     (* exists() is False *)
| AllowUnreadable                 (* read_text raises *)
| AllowText (text : string).      (* read_text(encoding="utf-8") *)

Record FileSystem := {
  resources : ResourcesState;
  allowlist_file : AllowlistState
}.

(** [list_png_files] *)
Definition list_png_files (d : Directory) : list Path :=
  merge_sort Str.le
    (List.filter
       (λ p, is_file d p && String.eqb (Str.lower (Pathlib.suffix p)) ".png")
       (iterdir d)).

(** The final component of a relative path text, as [.name] gives it for
    [resources_dir / s]. *)
Fixpoint basename_from (cur : string) (s : string) : string :=
  match s with
  | EmptyString => cur
  | String c s' =>
      if Ascii.eqb c "/" then basename_from "" s'
      else basename_from (cur ++ String c "") s'
  end.

Definition basename (s : string) : string := basename_from "" s.

(* ===================================================================== *)
(** ** Configuration                                                     *)
(* ===================================================================== *)

(** The namespace returned by [parser.parse_args]. *)
Record Args := {
  arg_resources : string;
  arg_allowlist : option string;
  arg_require_fallback : option string;
  arg_strict_alpha2 : bool;
  arg_allow_extra : list string
}.

Record ValidationConfig := {
  resources_dir : string;
  allowlist_path : option string;
  require_fallback_code : option string;
  strict_alpha2 : bool;
  extra_allowed_codes : gset string
}.

(** Truth value of a [str]: non-empty. *)
Definition truthy (s : string) : bool := negb (String.eqb s "").

(** Truth value of a [str | None]. *)
Definition truthy_opt (o : option string) : bool :=
  match o with
  | Some s => truthy s
  | None => false
  end.

(** Lines 124-139 of [main]: from the arguments to the configuration. *)
Definition make_config (args : Args) : ValidationConfig :=
  let require_fallback_code := arg_require_fallback args in
  let extra_allowed : gset string :=
    list_to_set
      (map normalize
         (List.filter (λ c, truthy (Str.strip c)) (arg_allow_extra args))) in
  let extra_allowed :=
    match require_fallback_code with
    | Some c => if truthy c then {[normalize c]} ∪ extra_allowed else extra_allowed
    | None => extra_allowed
    end in
  {| resources_dir := arg_resources args;
     allowlist_path := arg_allowlist args;
     require_fallback_code :=
       match require_fallback_code with
       | Some c => if truthy c then Some (normalize c) else None
       | None => None
       end;
     strict_alpha2 := arg_strict_alpha2 args;
     extra_allowed_codes := extra_allowed |}.

(* ===================================================================== *)
(** ** [read_allowlist] and [validate_filename]                          *)
(* ===================================================================== *)

Definition read_allowlist_step (codes : gset string) (raw : string) : gset string :=
  let line := Str.lower (Str.strip raw) in
  if negb (truthy line) || Str.startswith "#" line then codes
  else {[line]} ∪ codes.

(** [read_allowlist], on the text that [path.read_text] returned. *)
Definition read_allowlist (text : string) : gset string :=
  foldl read_allowlist_step ∅ (Str.splitlines text).

Definition reason_alpha2 : string :=
  "not ISO alpha-2 (expected exactly 2 lowercase letters)".
Definition reason_key_format : string :=
  "invalid key format (expected lowercase letters/digits/dash)".

Definition validate_filename (code : string) (cfg : ValidationConfig)
  : bool * option string :=
  if bool_decide (code ∈ extra_allowed_codes cfg) then (true, None)
  else if strict_alpha2 cfg then
    if Re.ALPHA2_RE_match code then (true, None)
    else (false, Some reason_alpha2)
  else
    if Re.DEFAULT_PNG_RE_match code then (true, None)
    else (false, Some reason_key_format).

(* ===================================================================== *)
(** ** Messages                                                          *)
(* ===================================================================== *)

Definition NL : string := String Str.LF "".

(** How an f-string prints a [str | None]. *)
Definition fmt_opt (o : option string) : string :=
  match o with
  | Some s => s
  | None => "None"
  end.

Definition msg_dir_absent (dir : string) : string :=
  "Resources directory does not exist: " ++ dir.
Definition msg_not_a_dir (dir : string) : string :=
  "Resources path is not a directory: " ++ dir.
Definition msg_no_png (dir : string) : string :=
  "No PNG files found in: " ++ dir ++ NL
  ++ "Did you run update_flags.sh to generate resources?".
Definition msg_invalid (nm : string) (reason : option string) : string :=
  "Invalid filename: " ++ nm ++ " (" ++ fmt_opt reason ++ ")".
Definition msg_duplicate (normalized first_name nm : string) : string :=
  "Duplicate code after normalization: '" ++ normalized ++ "'" ++ NL
  ++ " - " ++ first_name ++ NL
  ++ " - " ++ nm.
Definition msg_non_normalized (nm normalized : string) : string :=
  "Non-normalized filename: " ++ nm ++ " (should be " ++ normalized ++ ".png)".
Definition msg_missing_fallback (expected_name : string) : string :=
  "Missing required fallback asset: " ++ expected_name.
Definition msg_allowlist_absent (path : string) : string :=
  "Allowlist file does not exist: " ++ path.
Definition item_sep : string := NL ++ "  - ".
Definition msg_missing (missing : list string) : string :=
  "Missing PNGs for allowlist codes:" ++ item_sep ++ Str.join item_sep missing.
Definition msg_extra (extra : list string) : string :=
  "Extra PNGs found not listed in allowlist (may be OK):" ++ item_sep
  ++ Str.join item_sep (firstn 80 extra)
  ++ (if (length extra <=? 80)%nat then ""
      else NL ++ "  ...and " ++ Str.of_nat (length extra - 80) ++ " more").

(* ===================================================================== *)
(** ** The checks of [main]                                              *)
(* ===================================================================== *)

Local Open Scope list_scope.

(** The collections the loop updates: [errors], [warnings] and
    [seen_normalized]. *)
Record LoopState := {
  ls_errors : list string;
  ls_warnings : list string;
  ls_seen : gmap string Path
}.

(** One pass through the body of [for p in pngs] (lines 169-188). *)
Definition check_file (cfg : ValidationConfig) (st : LoopState) (p : Path)
  : LoopState :=
  let code := Pathlib.stem p in
  let normalized := normalize code in
  let '(ok, reason) := validate_filename normalized cfg in
  let errors :=
    if ok then ls_errors st
    else ls_errors st ++ [msg_invalid (Pathlib.name p) reason] in
  let '(errors, seen) :=
    match ls_seen st !! normalized with
    | Some q =>
        if bool_decide (q ≠ p)
        then (errors ++ [msg_duplicate normalized (Pathlib.name q) (Pathlib.name p)],
              ls_seen st)
        else (errors, <[normalized := p]> (ls_seen st))
    | None => (errors, <[normalized := p]> (ls_seen st))
    end in
  let warnings :=
    if bool_decide (code ≠ normalized)
    then ls_warnings st ++ [msg_non_normalized (Pathlib.name p) normalized]
    else ls_warnings st in
  {| ls_errors := errors; ls_warnings := warnings; ls_seen := seen |}.

(** Step 1 (lines 167-188), started from the given collections. *)
Definition check_files (cfg : ValidationConfig) (st : LoopState)
  (pngs : list Path) : LoopState :=
  foldl (check_file cfg) st pngs.

(** Step 2 (lines 191-194): the fallback asset. *)
Definition check_fallback (cfg : ValidationConfig) (d : Directory)
  (errors : list string) : list string :=
  match require_fallback_code cfg with
  | Some code =>
      if truthy code then
        let expected := (code ++ ".png")%string in
        if child_exists d expected then errors
        else errors ++ [msg_missing_fallback (basename expected)]
      else errors
  | None => errors
  end.

(** [sorted] on a list of [str]. *)
Definition sorted (l : list string) : list string := merge_sort Str.le l.

(** [missing] and [extra] of step 3 (lines 204-205). *)
Definition missing_codes (required_codes present_codes : gset string)
  : list string :=
  sorted (filter (λ c, c ∉ present_codes) (elements required_codes)).
Definition extra_codes (required_codes present_codes : gset string)
  : list string :=
  sorted (filter (λ c, c ∉ required_codes) (elements present_codes)).

(** Step 3 (lines 197-219): allowlist coverage.  [None] stands for the
    exception that [read_text] raises. *)
Definition check_allowlist (cfg : ValidationConfig) (af : AllowlistState)
  (seen_normalized : gmap string Path) (errors warnings : list string)
  : option (list string * list string) :=
  match allowlist_path cfg with
  | None => Some (errors, warnings)
  | Some path =>
      match af with
      | AllowAbsent => Some (errors ++ [msg_allowlist_absent path], warnings)
      | AllowUnreadable => None
      | AllowText text =>
          let required_codes := read_allowlist text in
          let present_codes : gset string := dom seen_normalized in
          let missing := missing_codes required_codes present_codes in
          let extra := extra_codes required_codes present_codes in
          let errors :=
            match missing with
            | [] => errors
            | _ => errors ++ [msg_missing missing]
            end in
          let warnings :=
            match extra with
            | [] => warnings
            | _ => warnings ++ [msg_extra extra]
            end in
          Some (errors, warnings)
      end
  end.

(** What a run hands to [report] and returns. *)
Record Result := {
  exit_code : Z;
  errors : list string;
  warnings : list string
}.

Inductive Outcome :=
| Returned (r : Result)
| Raised.

(** [return 0 if not errors else 2] *)
Definition final_code (errors : list string) : Z :=
  match errors with
  | [] => 0
  | _ => 2
  end.

Definition initial : LoopState :=
  {| ls_errors := []; ls_warnings := []; ls_seen := ∅ |}.

(** [main], lines 124-223. *)
Definition main (args : Args) (fs : FileSystem) : Outcome :=
  let cfg := make_config args in
  match resources fs with
  | ResAbsent =>
      Returned {| exit_code := 2;
                  errors := [msg_dir_absent (resources_dir cfg)];
                  warnings := [] |}
  | ResNotADirectory =>
      Returned {| exit_code := 2;
                  errors := [msg_not_a_dir (resources_dir cfg)];
                  warnings := [] |}
  | ResDirectory d =>
      match list_png_files d with
      | [] =>
          Returned {| exit_code := 2;
                      errors := [msg_no_png (resources_dir cfg)];
                      warnings := [] |}
      | pngs =>
          let st := check_files cfg initial pngs in
          let errors := check_fallback cfg d (ls_errors st) in
          match check_allowlist cfg (allowlist_file fs) (ls_seen st)
                  errors (ls_warnings st) with
          | Some (errors, warnings) =>
              Returned {| exit_code := final_code errors;
                          errors := errors;
                          warnings := warnings |}
          | None => Raised
          end
      end
  end.

(** A directory given by the names of its entries, all regular files. *)
Definition dir_of (names : list string) : Directory :=
  {| iterdir := names;
     is_file := λ _, true;
     child_exists := λ s, bool_decide (s ∈ names) |}.

Definition plain_args (strict : bool) : Args :=
  {| arg_resources := "Resources";
     arg_allowlist := None;
     arg_require_fallback := None;
     arg_strict_alpha2 := strict;
     arg_allow_extra := [] |}.

(* ===================================================================== *)
(** ** Vocabulary of the statements                                      *)
(* ===================================================================== *)

(** The normalized code of a discovered file. *)
Definition code_of (p : Path) : string := normalize (Pathlib.stem p).

(** The files a run discovers: none unless the resources path is a
    directory. *)
Definition discovered (fs : FileSystem) : list Path :=
  match resources fs with
  | ResDirectory d => list_png_files d
  | _ => []
  end.

(** The first file of [pngs] whose normalized code is [n]. *)
Definition first_file (pngs : list Path) (n : string) : option Path :=
  List.find (λ q, bool_decide (code_of q = n)) pngs.

(** The kinds of message, told apart by how their text starts. *)
Definition is_invalid_msg (e : string) : bool :=
  Str.startswith "Invalid filename: " e.
Definition is_duplicate_msg (e : string) : bool :=
  Str.startswith "Duplicate code after normalization: '" e.
Definition is_non_normalized_msg (e : string) : bool :=
  Str.startswith "Non-normalized filename: " e.
Definition is_fallback_msg (e : string) : bool :=
  Str.startswith "Missing required fallback asset: " e.
Definition is_missing_msg (e : string) : bool :=
  Str.startswith "Missing PNGs for allowlist codes:" e.
Definition is_extra_msg (e : string) : bool :=
  Str.startswith "Extra PNGs found not listed in allowlist" e.

(** The errors one file contributes, given all the files of the run. *)
Definition invalid_errors (cfg : ValidationConfig) (p : Path) : list string :=
  let '(ok, reason) := validate_filename (code_of p) cfg in
  if ok then [] else [msg_invalid (Pathlib.name p) reason].

Definition duplicate_errors (pngs : list Path) (p : Path) : list string :=
  match first_file pngs (code_of p) with
  | Some f =>
      if bool_decide (f ≠ p)
      then [msg_duplicate (code_of p) (Pathlib.name f) (Pathlib.name p)]
      else []
  | None => []
  end.

Definition file_errors (cfg : ValidationConfig) (pngs : list Path) (p : Path)
  : list string :=
  invalid_errors cfg p ++ duplicate_errors pngs p.

Definition file_warnings (p : Path) : list string :=
  if bool_decide (Pathlib.stem p ≠ code_of p)
  then [msg_non_normalized (Pathlib.name p) (code_of p)]
  else [].

(** A code of exactly two lowercase ASCII letters. *)
Definition two_lowercase_letters (s : string) : bool :=
  match s with
  | String a (String b EmptyString) => Re.is_lower_az a && Re.is_lower_az b
  | _ => false
  end.

Fixpoint all_chars (f : ascii → bool) (s : string) : bool :=
  match s with
  | EmptyString => true
  | String c s' => f c && all_chars f s'
  end.

(** A code that starts with a lowercase letter or digit, followed by
    zero or more lowercase letters, digits or hyphens. *)
Definition safe_key (s : string) : bool :=
  match s with
  | String a rest => Re.class_first a && all_chars Re.class_rest rest
  | EmptyString => false
  end.

(** The result of an early stop. *)
Definition stopped (msg : string) : Result :=
  {| exit_code := 2; errors := [msg]; warnings := [] |}.

(** Messages that the loop over the files does not produce. *)
Definition not_loop_msg (e : string) : Prop :=
  is_invalid_msg e = false ∧ is_duplicate_msg e = false
  ∧ is_non_normalized_msg e = false.

(** Two codes with a final line feed. *)
Definition us_line_feed : string := "us" ++ NL.
Definition a_line_feed : string := "a" ++ NL.

(** The reading of the duplicate rule for any two files: every pair of
    distinct discovered files with one normalized code has exactly one
    duplicate error naming the two. *)
Definition names_both (p q : Path) (e : string) : bool :=
  bool_decide (e = msg_duplicate (code_of p) (Pathlib.name p) (Pathlib.name q)
               ∨ e = msg_duplicate (code_of p) (Pathlib.name q) (Pathlib.name p)).

Definition every_pair_reported (args : Args) (fs : FileSystem) : Prop :=
  ∀ r p q,
    main args fs = Returned r →
    p ∈ discovered fs → q ∈ discovered fs → p ≠ q →
    code_of p = code_of q →
    length (List.filter (names_both p q) (errors r)) = 1.

(** Three files with one normalized code. *)
Definition three_cases : FileSystem :=
  {| resources := ResDirectory (dir_of ["us.png"; "Us.png"; "US.png"]);
     allowlist_file := AllowAbsent |}.

(** An allowlist of [us], [gb] and [xx], with a comment and a blank
    line, and a configuration that names it. *)
Definition allowlist_text : string :=
  "# required" ++ NL ++ "us" ++ NL ++ " GB " ++ NL ++ NL ++ "xx" ++ NL.

Definition allowlist_args : Args :=
  {| arg_resources := "Resources";
     arg_allowlist := Some "allowed_codes.txt";
     arg_require_fallback := None;
     arg_strict_alpha2 := true;
     arg_allow_extra := [] |}.

(** The fallback rule for one configured code: the normalized code is
    extra-allowed, and step 2 adds its error exactly when the expected
    file does not exist. *)
Definition fallback_rule (args : Args) (d : Directory) (errs : list string)
  (code : string) : Prop :=
  normalize code ∈ extra_allowed_codes (make_config args)
  ∧ check_fallback (make_config args) d errs
    = if child_exists d (normalize code ++ ".png")%string then errs
      else errs ++ [msg_missing_fallback
                      (basename (normalize code ++ ".png")%string)].

(** The reading of the rule for every configured fallback code. *)
Definition fallback_rule_always (args : Args) (d : Directory)
  (errs : list string) : Prop :=
  ∀ code, arg_require_fallback args = Some code → fallback_rule args d errs code.

(** A fallback code made of one space. *)
Definition blank_fallback_args : Args :=
  {| arg_resources := "Resources";
     arg_allowlist := None;
     arg_require_fallback := Some " ";
     arg_strict_alpha2 := false;
     arg_allow_extra := [] |}.

(** A run whose only findings are warnings. *)
Definition warned_run : Outcome :=
  main (plain_args false)
       {| resources := ResDirectory (dir_of ["Us.png"]);
          allowlist_file := AllowAbsent |}.

(** Arguments under which every later check would complain. *)
Definition demanding_args : Args :=
  {| arg_resources := "Resources";
     arg_allowlist := Some "allowed_codes.txt";
     arg_require_fallback := Some "xx";
     arg_strict_alpha2 := true;
     arg_allow_extra := [] |}.

(** A fallback code given in capitals between spaces. *)
Definition padded_fallback_args : Args :=
  {| arg_resources := "Resources";
     arg_allowlist := Some "allowed_codes.txt";
     arg_require_fallback := Some " XX ";
     arg_strict_alpha2 := true;
     arg_allow_extra := [] |}.

(* ===================================================================== *)
(** ** [report] and what a run prints                                    *)
(* ===================================================================== *)

(** The texts printed so far, one per call of [print], on the standard
    output and on the standard error stream. *)
Record Output := {
  stdout : list string;
  stderr : list string
}.

Definition no_output : Output := {| stdout := []; stderr := [] |}.

(** [print(text)] *)
Definition print (out : Output) (text : string) : Output :=
  {| stdout := stdout out ++ [text]; stderr := stderr out |}.

(** [eprint(text)]: [print(text, file=sys.stderr)] *)
Definition eprint (out : Output) (text : string) : Output :=
  {| stdout := stdout out; stderr := stderr out ++ [text] |}.

(** [for x in l: eprint(f"- {x}")] *)
Definition eprint_items (out : Output) (l : list string) : Output :=
  foldl (λ o x, eprint o ("- " ++ x)%string) out l.

(** [report] (lines 226-239). *)
Definition report (errors warnings : list string) (out : Output) : Output :=
  let out :=
    match warnings with
    | [] => out
    | _ => eprint_items (eprint out "==> WARNINGS:") warnings
    end in
  match errors with
  | [] => print out "Validation OK."
  | _ =>
      eprint (eprint_items (eprint out (NL ++ "==> ERRORS:")%string) errors)
        (NL ++ "Validation FAILED.")%string
  end.

(** A run as the shell sees it: what [main] prints through [report],
    which it calls with its two lists just before each [return], and
    the exit code.  [None] stands for the uncaught exception. *)
Definition run (args : Args) (fs : FileSystem) : option (Output * Z) :=
  match main args fs with
  | Returned r => Some (report (errors r) (warnings r) no_output, exit_code r)
  | Raised => None
  end.

(** The error of step 2 and the messages of step 3, on their own. *)
Definition fallback_errors (cfg : ValidationConfig) (d : Directory)
  : list string :=
  check_fallback cfg d [].

Definition allowlist_errors (cfg : ValidationConfig) (af : AllowlistState)
  (present_codes : gset string) : list string :=
  match allowlist_path cfg, af with
  | Some path, AllowAbsent => [msg_allowlist_absent path]
  | Some _, AllowText text =>
      match missing_codes (read_allowlist text) present_codes with
      | [] => []
      | missing => [msg_missing missing]
      end
  | _, _ => []
  end.

Definition allowlist_warnings (cfg : ValidationConfig) (af : AllowlistState)
  (present_codes : gset string) : list string :=
  match allowlist_path cfg, af with
  | Some _, AllowText text =>
      match extra_codes (read_allowlist text) present_codes with
      | [] => []
      | extra => [msg_extra extra]
      end
  | _, _ => []
  end.

(** The normalized codes of a list of files. *)
Definition codes_of (pngs : list Path) : gset string :=
  list_to_set (map code_of pngs).

(** A run for the later examples: one file in capitals, an allowlist
    that does not exist. *)
Definition absent_allowlist_fs : FileSystem :=
  {| resources := ResDirectory (dir_of ["US.png"]);
     allowlist_file := AllowAbsent |}.

(** Messages that are not of the two kinds of the allowlist check. *)
Definition not_allowlist_msg (e : string) : Prop :=
  is_missing_msg e = false ∧ is_extra_msg e = false.

(** A directory in which [xx] is missing and [fr] is not required. *)
Definition allowlist_fs : FileSystem :=
  {| resources := ResDirectory (dir_of ["us.png"; "gb.png"; "fr.png"]);
     allowlist_file := AllowText allowlist_text |}.

(** The invalid-filename error a file should get, read off the rules:
    none for an extra-allowed code; otherwise none for two lowercase
    letters in strict mode, and none for a safe key in lenient mode. *)
Definition expected_invalid (cfg : ValidationConfig) (p : Path) : list string :=
  if bool_decide (code_of p ∈ extra_allowed_codes cfg) then []
  else if strict_alpha2 cfg then
    if two_lowercase_letters (code_of p) then []
    else [msg_invalid (Pathlib.name p) (Some reason_alpha2)]
  else
    if safe_key (code_of p) then []
    else [msg_invalid (Pathlib.name p) (Some reason_key_format)].

(** A code followed by one line feed, or the code itself. *)
Definition up_to_final_line_feed (accepted : string → bool) (code : string)
  : Prop :=
  accepted code = true
  ∨ ∃ t, code = (t ++ NL)%string ∧ accepted t = true.

(** A strict run over names in capitals, with digits and with a dash. *)
Definition mixed_fs : FileSystem :=
  {| resources := ResDirectory (dir_of ["US.png"; "flag-1.png"; "gb.png"; "x.png"]);
     allowlist_file := AllowAbsent |}.

(** What an early stop prints: the errors heading, the one error as
    an item, the failure notice; nothing on the standard output. *)
Definition stop_output (msg : string) : Output :=
  {| stdout := [];
     stderr := [NL ++ "==> ERRORS:"; "- " ++ msg; NL ++ "Validation FAILED."]%string |}.

(* ===================================================================== *)
(** * Properties                                                         *)
(* ===================================================================== *)

(** ** Runs on concrete inputs *)

Example normalize_US : normalize " Us " = "us".
Proof. reflexivity. Qed.

Example splitlines_ex :
  Str.splitlines ("us" ++ String Str.CR (String Str.LF ("gb" ++ String Str.LF "")))
  = ["us"; "gb"].
Proof. reflexivity. Qed.

Example stem_US : Pathlib.stem "US.png" = "US" ∧ Pathlib.suffix "US.PNG" = ".PNG".
Proof. split; reflexivity. Qed.

Example stem_hidden : Pathlib.stem ".png" = ".png" ∧ Pathlib.suffix ".png" = "".
Proof. split; reflexivity. Qed.

Example list_png_files_ex :
  list_png_files {| iterdir := ["us.png"; ".gitkeep"; "US.png"; "gb.PNG"; "d.png"];
                    is_file := λ p, negb (String.eqb p "d.png");
                    child_exists := λ _, false |}
  = ["US.png"; "gb.PNG"; "us.png"].
Proof. vm_compute. reflexivity. Qed.

Example main_ok :
  main (plain_args false)
       {| resources := ResDirectory (dir_of ["us.png"; "gb.png"]);
          allowlist_file := AllowAbsent |}
  = Returned {| exit_code := 0; errors := []; warnings := [] |}.
Proof. vm_compute. reflexivity. Qed.

Example main_dup :
  main (plain_args true)
       {| resources := ResDirectory (dir_of ["us.png"; "US.png"]);
          allowlist_file := AllowAbsent |}
  = Returned {| exit_code := 2;
                errors := [msg_duplicate "us" "US.png" "us.png"];
                warnings := [msg_non_normalized "US.png" "us"] |}.
Proof. vm_compute. reflexivity. Qed.

Example main_allowlist :
  main {| arg_resources := "Resources";
          arg_allowlist := Some "allowed_codes.txt";
          arg_require_fallback := Some "xx";
          arg_strict_alpha2 := true;
          arg_allow_extra := [] |}
       {| resources := ResDirectory (dir_of ["us.png"; "gb.png"; "fr.png"]);
          allowlist_file :=
            AllowText ("# codes" ++ NL ++ "us" ++ NL ++ " GB " ++ NL
                       ++ NL ++ "xx" ++ NL)%string |}
  = Returned {| exit_code := 2;
                errors := [msg_missing_fallback "xx.png"; msg_missing ["xx"]];
                warnings := [msg_extra ["fr"]] |}.
Proof. vm_compute. reflexivity. Qed.

(** ** The loop over the discovered files *)

Lemma flat_map_ext_elem {A B} (f g : A → list B) (l : list A) :
  (∀ x, x ∈ l → f x = g x) → flat_map f l = flat_map g l.
Proof.
  induction l as [|x l IH]; intros H; simpl; [done|].
  rewrite (H x) by left. rewrite IH; [done|].
  intros y Hy. apply H. by right.
Qed.

Section Loop.

Variable cfg : ValidationConfig.

Lemma check_files_snoc st l x :
  check_files cfg st (l ++ [x]) = check_file cfg (check_files cfg st l) x.
Proof. unfold check_files. by rewrite foldl_app. Qed.

Lemma first_file_snoc l x n :
  first_file (l ++ [x]) n =
  match first_file l n with
  | Some f => Some f
  | None => if bool_decide (code_of x = n) then Some x else None
  end.
Proof.
  unfold first_file. induction l as [|y l IH]; simpl.
  - done.
  - by destruct (bool_decide (code_of y = n)).
Qed.

Lemma first_file_is_Some l p :
  p ∈ l → is_Some (first_file l (code_of p)).
Proof.
  unfold first_file. induction l as [|y l IH]; intros Hin.
  - by apply elem_of_nil in Hin.
  - simpl. destruct (bool_decide_reflect (code_of y = code_of p)) as [|Hne].
    + by eexists.
    + apply elem_of_cons in Hin as [->|Hin]; [done | by apply IH].
Qed.

Lemma first_file_snoc_old l x p :
  p ∈ l → first_file (l ++ [x]) (code_of p) = first_file l (code_of p).
Proof.
  intros Hin. rewrite first_file_snoc.
  by destruct (first_file_is_Some l p Hin) as [f ->].
Qed.

Lemma first_file_elem l n f :
  first_file l n = Some f → f ∈ l ∧ code_of f = n.
Proof.
  unfold first_file. intros H. apply find_some in H as [Hin Hc].
  split; [by apply list_elem_of_In | by apply bool_decide_eq_true in Hc].
Qed.

Lemma first_file_None l n :
  first_file l n = None ↔ ∀ p, p ∈ l → code_of p ≠ n.
Proof.
  unfold first_file. induction l as [|y l IH]; simpl.
  - split; [intros _ p Hp; by apply elem_of_nil in Hp | done].
  - destruct (bool_decide_reflect (code_of y = n)) as [Hy|Hy].
    + split; [done|]. intros H. destruct (H y); [left | done].
    + rewrite IH. split.
      * intros H p Hp. apply elem_of_cons in Hp as [->|Hp]; auto.
      * intros H p Hp. apply H. by right.
Qed.

Lemma file_errors_snoc_old l x p :
  p ∈ l → file_errors cfg (l ++ [x]) p = file_errors cfg l p.
Proof.
  intros Hin. unfold file_errors, duplicate_errors.
  by rewrite first_file_snoc_old.
Qed.

Lemma flat_map_file_errors_snoc l x :
  flat_map (file_errors cfg (l ++ [x])) l = flat_map (file_errors cfg l) l.
Proof.
  apply flat_map_ext_elem. intros p Hp.
  by apply file_errors_snoc_old.
Qed.

(** What the three collections hold after the loop has run over [l]. *)
Lemma check_files_inv l :
  (∀ n, ls_seen (check_files cfg initial l) !! n = first_file l n)
  ∧ ls_errors (check_files cfg initial l) = flat_map (file_errors cfg l) l
  ∧ ls_warnings (check_files cfg initial l) = flat_map file_warnings l.
Proof.
  induction l as [|x l IH] using rev_ind.
  - split_and!; [intros n; apply lookup_empty | done | done].
  - destruct IH as (Hseen & Herr & Hwarn).
    rewrite check_files_snoc.
    set (st := check_files cfg initial l) in *.
    rewrite !flat_map_app, flat_map_file_errors_snoc. simpl.
    rewrite !app_nil_r.
    unfold check_file.
    fold (code_of x).
    unfold file_errors at 2, invalid_errors, duplicate_errors.
    destruct (validate_filename (code_of x) cfg) as [ok reason].
    rewrite (first_file_snoc l x (code_of x)).
    rewrite (Hseen (code_of x)).
    rewrite (bool_decide_eq_true_2 (code_of x = code_of x)) by done.
    destruct (first_file l (code_of x)) as [q|] eqn:Hq.
    + destruct (bool_decide_reflect (q ≠ x)) as [Hne|Heq]; simpl.
      * split_and!.
        -- intros n. rewrite first_file_snoc, Hseen.
           destruct (first_file l n) eqn:Hn; [done|].
           destruct (bool_decide_reflect (code_of x = n)); [congruence | done].
        -- rewrite Herr. destruct ok; simpl; by rewrite <- ?app_assoc.
        -- rewrite Hwarn. unfold file_warnings.
           destruct (bool_decide _); by rewrite ?app_nil_r.
      * assert (q = x) as -> by (by destruct (decide (q = x))).
        split_and!.
        -- intros n. rewrite first_file_snoc.
           destruct (decide (code_of x = n)) as [<-|Hn].
           ++ by rewrite lookup_insert_eq, Hq.
           ++ rewrite lookup_insert_ne, Hseen by done.
              rewrite bool_decide_eq_false_2 by done.
              by destruct (first_file l n).
        -- rewrite Herr. destruct ok; simpl; by rewrite ?app_nil_r.
        -- rewrite Hwarn. unfold file_warnings.
           destruct (bool_decide _); by rewrite ?app_nil_r.
    + simpl. split_and!.
      * intros n. rewrite first_file_snoc.
        destruct (decide (code_of x = n)) as [<-|Hn].
        -- by rewrite lookup_insert_eq, Hq, bool_decide_eq_true_2.
        -- rewrite lookup_insert_ne, Hseen by done.
           rewrite bool_decide_eq_false_2 by done.
           by destruct (first_file l n).
      * rewrite Herr, (bool_decide_eq_false_2 (x ≠ x)) by (intros H; by apply H).
        destruct ok; simpl; by rewrite ?app_nil_r.
      * rewrite Hwarn. unfold file_warnings.
           destruct (bool_decide _); by rewrite ?app_nil_r.
Qed.

End Loop.

(** ** Exit code and early stops *)

Lemma main_reaches_checks args fs d :
  resources fs = ResDirectory d →
  list_png_files d ≠ [] →
  main args fs =
  let cfg := make_config args in
  let st := check_files cfg initial (list_png_files d) in
  match check_allowlist cfg (allowlist_file fs) (ls_seen st)
          (check_fallback cfg d (ls_errors st)) (ls_warnings st) with
  | Some (errors, warnings) =>
      Returned {| exit_code := final_code errors;
                  errors := errors;
                  warnings := warnings |}
  | None => Raised
  end.
Proof.
  intros Hres Hne. unfold main. rewrite Hres.
  by destruct (list_png_files d).
Qed.

Lemma check_allowlist_returns cfg af seen errors warnings :
  af ≠ AllowUnreadable →
  is_Some (check_allowlist cfg af seen errors warnings).
Proof.
  intros Haf. unfold check_allowlist.
  destruct (allowlist_path cfg); [|by eexists].
  destruct af; [by eexists | done | by eexists].
Qed.

(** A run returns unless reading the allowlist raises. *)
Lemma main_returns args fs :
  allowlist_file fs ≠ AllowUnreadable → ∃ r, main args fs = Returned r.
Proof.
  intros Haf. unfold main.
  destruct (resources fs) as [| |d]; [by eexists | by eexists |].
  destruct (list_png_files d) as [|p pngs]; [by eexists|].
  match goal with
  | |- context [check_allowlist ?c ?a ?s ?e ?w] =>
      destruct (check_allowlist_returns c a s e w Haf) as [[e' w'] ->]
  end.
  by eexists.
Qed.

Lemma final_code_spec (errors : list string) :
  (final_code errors = 2%Z ↔ errors ≠ []) ∧ (errors = [] → final_code errors = 0%Z).
Proof. destruct errors; simpl; split; try split; try done. Qed.

(** C1. A run that is not interrupted by an exception returns, and the
    exit code it returns is 2 exactly when the list of errors handed to
    [report] is not empty, and 0 when that list is empty, whatever the
    warnings are. *)
Theorem exit_code_reflects_errors (args : Args) (fs : FileSystem) :
  (allowlist_file fs ≠ AllowUnreadable → ∃ r, main args fs = Returned r)
  ∧ ∀ r, main args fs = Returned r →
      (exit_code r = 2%Z ↔ errors r ≠ [])
      ∧ (errors r = [] → exit_code r = 0%Z)
      ∧ (exit_code r = 0%Z ∨ exit_code r = 2%Z).
Proof.
  split; [apply main_returns|].
  intros r. unfold main.
  destruct (resources fs) as [| |d].
  - intros [= <-]. simpl. split_and!; [done | done | by right].
  - intros [= <-]. simpl. split_and!; [done | done | by right].
  - destruct (list_png_files d) as [|p pngs].
    + intros [= <-]. simpl. split_and!; [done | done | by right].
    + destruct (check_allowlist _ _ _ _ _) as [[e w]|]; [|done].
      intros [= <-]. simpl.
      destruct (final_code_spec e) as [H2 H0].
      split_and!; [done | done |].
      destruct e; [by left | by right].
Qed.

Lemma exit_code_reflects_errors_witness :
  warned_run
  = Returned {| exit_code := 0; errors := [];
                warnings := [msg_non_normalized "Us.png" "us"] |}
  ∧ (exit_code {| exit_code := 0; errors := [];
                  warnings := [msg_non_normalized "Us.png" "us"] |} = 2%Z
     ↔ @nil string ≠ []).
Proof.
  split; [vm_compute; reflexivity|].
  refine (proj1 (proj2 (exit_code_reflects_errors (plain_args false)
            {| resources := ResDirectory (dir_of ["Us.png"]);
               allowlist_file := AllowAbsent |}) _ _)).
  vm_compute; reflexivity.
Defined.

Lemma list_png_files_nil d :
  list_png_files d = [] ↔
  ∀ p, p ∈ iterdir d → is_file d p = true →
       Str.lower (Pathlib.suffix p) ≠ ".png".
Proof.
  unfold list_png_files. split.
  - intros H p Hp Hf Hs.
    assert (p ∈ @nil string) as Hnil; [|by apply elem_of_nil in Hnil].
    rewrite <- H, merge_sort_Permutation.
    apply list_elem_of_In, filter_In. split; [by apply list_elem_of_In|].
    rewrite Hf. simpl. by apply String.eqb_eq.
  - intros H. apply Permutation_nil. rewrite <- (merge_sort_Permutation Str.le).
    replace (List.filter _ (iterdir d)) with (@nil string); [done|].
    symmetry. induction (iterdir d) as [|p l IH]; [done|]. simpl.
    destruct (is_file d p) eqn:Hf; simpl.
    + destruct (String.eqb_spec (Str.lower (Pathlib.suffix p)) ".png") as [Hs|Hs].
      * destruct (H p); [left | done | done].
      * apply IH. intros q Hq. apply H. by right.
    + apply IH. intros q Hq. apply H. by right.
Qed.

(** C2. A resources path that does not exist, that is not a directory,
    or that is a directory without any regular file of suffix [.png]
    (case ignored) makes the run return at once: exit code 2, the one
    error of that case, no warning, whatever the other arguments and
    the allowlist file are, so that none of the later checks adds
    anything. *)
Theorem early_stop_single_error (args : Args) (fs : FileSystem) :
  (resources fs = ResAbsent →
   main args fs = Returned (stopped (msg_dir_absent (arg_resources args))))
  ∧ (resources fs = ResNotADirectory →
     main args fs = Returned (stopped (msg_not_a_dir (arg_resources args))))
  ∧ (∀ d, resources fs = ResDirectory d →
       (∀ p, p ∈ iterdir d → is_file d p = true →
             Str.lower (Pathlib.suffix p) ≠ ".png") →
       main args fs = Returned (stopped (msg_no_png (arg_resources args)))).
Proof.
  unfold main. split_and!.
  - by intros ->.
  - by intros ->.
  - intros d -> Hnone. apply list_png_files_nil in Hnone. by rewrite Hnone.
Qed.

Lemma early_stop_single_error_witness :
  main demanding_args
       {| resources := ResDirectory (dir_of [".gitkeep"; "README.md"]);
          allowlist_file := AllowUnreadable |}
  = Returned (stopped (msg_no_png "Resources")).
Proof.
  refine (proj2 (proj2 (early_stop_single_error demanding_args
            {| resources := ResDirectory (dir_of [".gitkeep"; "README.md"]);
               allowlist_file := AllowUnreadable |})) _ eq_refl _).
  intros p Hp _. simpl in Hp.
  apply elem_of_cons in Hp as [->|Hp]; [by vm_compute|].
  apply elem_of_cons in Hp as [->|Hp]; [by vm_compute|].
  by apply elem_of_nil in Hp.
Defined.

(** ** The name validator *)

#[local] Arguments String.append !_ _ / : simpl nomatch.

(** C5. A code of the extra-allowed set passes, with no reason, in
    strict and in lenient mode alike: the answer does not depend on the
    mode, nor on what the patterns say of the code. *)
Theorem extra_allowed_passes (code : string) (cfg : ValidationConfig) :
  code ∈ extra_allowed_codes cfg →
  validate_filename code cfg = (true, None).
Proof.
  intros Hin. unfold validate_filename.
  by rewrite bool_decide_eq_true_2.
Qed.

Lemma extra_allowed_passes_witness :
  "not a key!" ∈ extra_allowed_codes
                   (make_config {| arg_resources := "Resources";
                                   arg_allowlist := None;
                                   arg_require_fallback := None;
                                   arg_strict_alpha2 := true;
                                   arg_allow_extra := ["Not a key!"] |})
  ∧ validate_filename "not a key!"
      (make_config {| arg_resources := "Resources";
                      arg_allowlist := None;
                      arg_require_fallback := None;
                      arg_strict_alpha2 := true;
                      arg_allow_extra := ["Not a key!"] |})
    = (true, None).
Proof.
  assert ("not a key!" ∈ extra_allowed_codes
            (make_config {| arg_resources := "Resources";
                            arg_allowlist := None;
                            arg_require_fallback := None;
                            arg_strict_alpha2 := true;
                            arg_allow_extra := ["Not a key!"] |})) as Hin.
  { eapply (bool_decide_unpack _). vm_compute. exact I. }
  split; [exact Hin | exact (extra_allowed_passes _ _ Hin)].
Defined.

Lemma at_dollar_spec rest :
  Re.at_dollar rest = true ↔ rest = "" ∨ rest = NL.
Proof.
  destruct rest as [|c [|d rest]]; simpl.
  - split; [by left | done].
  - split.
    + intros H. right. unfold NL. f_equal. by apply Ascii.eqb_eq.
    + intros [|[= ->]]; [done | apply Ascii.eqb_refl].
  - split; [done | by intros [|]].
Qed.

(** What [ALPHA2_RE] accepts: two lowercase letters, or two lowercase
    letters and one final line feed. *)
Lemma ALPHA2_RE_match_spec s :
  Re.ALPHA2_RE_match s = true ↔
  two_lowercase_letters s = true
  ∨ ∃ t, s = (t ++ NL)%string ∧ two_lowercase_letters t = true.
Proof.
  destruct s as [|a [|b rest]]; simpl.
  - split; [done|]. intros [|(t & Ht & H2)]; [done|].
    by destruct t.
  - split; [done|]. intros [|(t & Ht & H2)]; [done|].
    destruct t as [|? [|? [|]]]; done.
  - rewrite andb_true_iff, at_dollar_spec. split.
    + intros [Hab [->| ->]]; [by left | right].
      by exists (String a (String b "")).
    + intros [H|(t & Ht & H2)].
      * destruct rest; [|done]. split; [done | by left].
      * destruct t as [|a' [|b' [|]]]; try done.
        simpl in Ht. injection Ht as -> -> ->. split; [done | by right].
Qed.

Lemma star_rest_dollar_spec s :
  Re.star_rest_dollar s = true ↔
  all_chars Re.class_rest s = true
  ∨ ∃ t, s = (t ++ NL)%string ∧ all_chars Re.class_rest t = true.
Proof.
  induction s as [|c s IH].
  - simpl. split; [by left | done].
  - cbn [Re.star_rest_dollar all_chars].
    rewrite orb_true_iff, at_dollar_spec, !andb_true_iff, IH. split.
    + intros [[|[= -> ->]]|[Hc [Hs|(t & -> & Ht)]]]; try done.
      * right. by exists "".
      * left. done.
      * right. exists (String c t). simpl. by rewrite Hc, Ht.
    + intros [[Hc Hs]|(t & Ht & Hall)].
      * right. split; [done | by left].
      * destruct t as [|c' t]; simpl in Ht.
        -- left. right. done.
        -- injection Ht as -> ->. simpl in Hall.
           apply andb_true_iff in Hall as [Hc Ht].
           right. split; [done|]. right. by exists t.
Qed.

(** What [DEFAULT_PNG_RE] accepts: a safe key, or a safe key and one
    final line feed. *)
Lemma DEFAULT_PNG_RE_match_spec s :
  Re.DEFAULT_PNG_RE_match s = true ↔
  safe_key s = true ∨ ∃ t, s = (t ++ NL)%string ∧ safe_key t = true.
Proof.
  destruct s as [|a rest]; simpl.
  - split; [done|]. intros [|(t & Ht & H)]; [done | by destruct t].
  - rewrite !andb_true_iff, star_rest_dollar_spec. split.
    + intros [Ha [Hr|(t & -> & Ht)]]; [by left | right].
      exists (String a t). simpl. by rewrite Ha, Ht.
    + intros [[Ha Hr]|(t & Ht & H)]; [split; [done | by left]|].
      destruct t as [|a' t]; [done|]. simpl in Ht, H.
      injection Ht as -> ->. apply andb_true_iff in H as [Ha Ht].
      split; [done|]. right. by exists t.
Qed.

(** A normalized code never ends with a line feed: [strip] has removed
    trailing white space and [lower] creates none. *)

Lemma is_space_lower_char c : Str.is_space (Str.lower_char c) = Str.is_space c.
Proof. by destruct c as [[] [] [] [] [] [] [] []]. Qed.

Lemma rstrip_last s t c :
  Str.rstrip s = (t ++ String c "")%string → Str.is_space c = false.
Proof.
  revert t. induction s as [|a s IH]; intros t; simpl.
  - by destruct t.
  - destruct (Str.rstrip s) as [|b r] eqn:Hr.
    + destruct (Str.is_space a) eqn:Ha; [by destruct t|].
      destruct t as [|a' t]; simpl; [congruence|].
      intros [= _ H]. by destruct t.
    + destruct t as [|a' t]; simpl; [done|].
      intros [= _ H]. by apply (IH t).
Qed.

Lemma lower_last s t c :
  Str.lower s = (t ++ String c "")%string →
  ∃ t' c', s = (t' ++ String c' "")%string ∧ c = Str.lower_char c'.
Proof.
  revert t. induction s as [|a s IH]; intros t; simpl.
  - by destruct t.
  - destruct t as [|a' t]; simpl.
    + intros [= Ha Hs]. destruct s; [|done]. by exists "", a.
    + intros [= Ha Hs]. destruct (IH t Hs) as (t' & c' & -> & ->).
      by exists (String a t'), c'.
Qed.

Lemma normalize_no_final_line_feed raw t : normalize raw ≠ (t ++ NL)%string.
Proof.
  unfold normalize, NL. intros H.
  apply lower_last in H as (t' & c' & Hstrip & Hc).
  apply rstrip_last in Hstrip.
  rewrite <- is_space_lower_char, <- Hc in Hstrip. done.
Qed.

(** On a code without a final line feed the strict branch decides
    "exactly two lowercase letters" ... *)
Lemma validate_filename_strict code cfg :
  code ∉ extra_allowed_codes cfg →
  strict_alpha2 cfg = true →
  (∀ t, code ≠ (t ++ NL)%string) →
  validate_filename code cfg =
  if two_lowercase_letters code then (true, None)
  else (false, Some reason_alpha2).
Proof.
  intros Hex Hstrict Hnl. unfold validate_filename.
  rewrite bool_decide_eq_false_2, Hstrict by done.
  destruct (Re.ALPHA2_RE_match code) eqn:Hm.
  - apply ALPHA2_RE_match_spec in Hm as [->|(t & -> & _)]; [done|].
    by destruct (Hnl t).
  - destruct (two_lowercase_letters code) eqn:H2; [|done].
    assert (Re.ALPHA2_RE_match code = true) as Hm'
      by (apply ALPHA2_RE_match_spec; by left).
    congruence.
Qed.

(** ... and the lenient branch decides "safe key". *)
Lemma validate_filename_lenient code cfg :
  code ∉ extra_allowed_codes cfg →
  strict_alpha2 cfg = false →
  (∀ t, code ≠ (t ++ NL)%string) →
  validate_filename code cfg =
  if safe_key code then (true, None)
  else (false, Some reason_key_format).
Proof.
  intros Hex Hstrict Hnl. unfold validate_filename.
  rewrite bool_decide_eq_false_2, Hstrict by done.
  destruct (Re.DEFAULT_PNG_RE_match code) eqn:Hm.
  - apply DEFAULT_PNG_RE_match_spec in Hm as [->|(t & -> & _)]; [done|].
    by destruct (Hnl t).
  - destruct (safe_key code) eqn:H2; [|done].
    assert (Re.DEFAULT_PNG_RE_match code = true) as Hm'
      by (apply DEFAULT_PNG_RE_match_spec; by left).
    congruence.
Qed.

(** In particular on every code that [main] validates, which is the
    normalized code of a file. *)
Lemma validate_filename_normalized raw cfg :
  normalize raw ∉ extra_allowed_codes cfg →
  validate_filename (normalize raw) cfg =
  if strict_alpha2 cfg then
    if two_lowercase_letters (normalize raw) then (true, None)
    else (false, Some reason_alpha2)
  else
    if safe_key (normalize raw) then (true, None)
    else (false, Some reason_key_format).
Proof.
  intros Hex. destruct (strict_alpha2 cfg) eqn:Hs.
  - apply validate_filename_strict; auto using normalize_no_final_line_feed.
  - apply validate_filename_lenient; auto using normalize_no_final_line_feed.
Qed.

(** On the bare function, outside any run: in strict mode, with an empty
    extra-allowed set, the three-character code made of [us] and a line
    feed passes, since [$] in [ALPHA2_RE] also matches just before a
    final line feed. *)
Lemma strict_passes_final_line_feed :
  (us_line_feed ∉ extra_allowed_codes (make_config (plain_args true)))
  ∧ strict_alpha2 (make_config (plain_args true)) = true
  ∧ two_lowercase_letters us_line_feed = false
  ∧ validate_filename us_line_feed (make_config (plain_args true))
    = (true, None).
Proof.
  split_and!; try reflexivity.
  eapply (bool_decide_eq_false_1 _). vm_compute. reflexivity.
Qed.

(** Likewise in lenient mode for the code made of [a] and a line feed,
    through [$] in [DEFAULT_PNG_RE]. *)
Lemma lenient_passes_final_line_feed :
  (a_line_feed ∉ extra_allowed_codes (make_config (plain_args false)))
  ∧ strict_alpha2 (make_config (plain_args false)) = false
  ∧ safe_key a_line_feed = false
  ∧ validate_filename a_line_feed (make_config (plain_args false))
    = (true, None).
Proof.
  split_and!; try reflexivity.
  eapply (bool_decide_eq_false_1 _). vm_compute. reflexivity.
Qed.

(** ** Kinds of message *)

Lemma filter_flat_map {A B} (f : B → bool) (g : A → list B) (l : list A) :
  List.filter f (flat_map g l) = flat_map (λ x, List.filter f (g x)) l.
Proof.
  induction l as [|x l IH]; simpl; [done|].
  by rewrite List.filter_app, IH.
Qed.

Lemma filter_none {A} (f : A → bool) (l : list A) :
  Forall (λ x, f x = false) l → List.filter f l = [].
Proof. induction 1 as [|x l Hx _ IH]; simpl; [done | by rewrite Hx]. Qed.

Lemma invalid_errors_kinds cfg p :
  List.filter is_invalid_msg (invalid_errors cfg p) = invalid_errors cfg p
  ∧ List.filter is_duplicate_msg (invalid_errors cfg p) = []
  ∧ List.filter is_non_normalized_msg (invalid_errors cfg p) = [].
Proof.
  unfold invalid_errors.
  destruct (validate_filename (code_of p) cfg) as [[] reason]; done.
Qed.

Lemma duplicate_errors_kinds pngs p :
  List.filter is_invalid_msg (duplicate_errors pngs p) = []
  ∧ List.filter is_duplicate_msg (duplicate_errors pngs p)
    = duplicate_errors pngs p
  ∧ List.filter is_non_normalized_msg (duplicate_errors pngs p) = [].
Proof.
  unfold duplicate_errors.
  destruct (first_file pngs (code_of p)); [|done].
  destruct (bool_decide _); done.
Qed.

Lemma file_warnings_kind p :
  List.filter is_non_normalized_msg (file_warnings p) = file_warnings p.
Proof. unfold file_warnings. by destruct (bool_decide _). Qed.

Lemma flat_map_nil {A B} (l : list A) : flat_map (λ _, @nil B) l = [].
Proof. by induction l. Qed.

Lemma loop_errors_kinds cfg pngs :
  let es := flat_map (file_errors cfg pngs) pngs in
  List.filter is_invalid_msg es = flat_map (invalid_errors cfg) pngs
  ∧ List.filter is_duplicate_msg es = flat_map (duplicate_errors pngs) pngs
  ∧ List.filter is_non_normalized_msg es = [].
Proof.
  cbv zeta. rewrite !filter_flat_map. split_and!.
  - apply flat_map_ext_elem. intros p _. unfold file_errors.
    rewrite List.filter_app.
    destruct (invalid_errors_kinds cfg p) as (-> & _ & _).
    destruct (duplicate_errors_kinds pngs p) as (-> & _ & _).
    by rewrite app_nil_r.
  - apply flat_map_ext_elem. intros p _. unfold file_errors.
    rewrite List.filter_app.
    destruct (invalid_errors_kinds cfg p) as (_ & -> & _).
    by destruct (duplicate_errors_kinds pngs p) as (_ & -> & _).
  - rewrite <- (flat_map_nil pngs).
    apply flat_map_ext_elem. intros p _. unfold file_errors.
    rewrite List.filter_app.
    destruct (invalid_errors_kinds cfg p) as (_ & _ & ->).
    by destruct (duplicate_errors_kinds pngs p) as (_ & _ & ->).
Qed.

Lemma check_fallback_adds cfg d errors :
  ∃ post, check_fallback cfg d errors = errors ++ post
          ∧ Forall not_loop_msg post.
Proof.
  unfold check_fallback.
  destruct (require_fallback_code cfg) as [code|];
    [|exists []; by rewrite app_nil_r].
  destruct (truthy code); [|exists []; by rewrite app_nil_r].
  destruct (child_exists d _); [exists []; by rewrite app_nil_r|].
  eexists; split; [done|]. by repeat constructor.
Qed.

Lemma check_allowlist_adds cfg af seen errors warnings es ws :
  check_allowlist cfg af seen errors warnings = Some (es, ws) →
  ∃ post wpost, es = errors ++ post ∧ ws = warnings ++ wpost
                ∧ Forall not_loop_msg post ∧ Forall not_loop_msg wpost.
Proof.
  unfold check_allowlist.
  destruct (allowlist_path cfg) as [path|].
  - destruct af as [| |text]; [| done |].
    + intros [= <- <-]. exists [msg_allowlist_absent path], [].
      rewrite app_nil_r. split_and!; try done. by repeat constructor.
    + intros [= <- <-].
      destruct (missing_codes _ _) as [|m ms];
        destruct (extra_codes _ _) as [|x xs].
      * exists [], []. by rewrite !app_nil_r.
      * eexists [], [_]. rewrite !app_nil_r. split_and!; try done.
        by repeat constructor.
      * eexists [_], []. rewrite !app_nil_r. split_and!; try done.
        by repeat constructor.
      * eexists [_], [_]. split_and!; try done; by repeat constructor.
  - intros [= <- <-]. exists [], []. by rewrite !app_nil_r.
Qed.

(** The collections of a run: what the loop recorded for the discovered
    files, between and before messages of other kinds. *)
Lemma main_collections args fs r :
  main args fs = Returned r →
  ∃ pre post wpost,
    errors r = pre ++ flat_map (file_errors (make_config args) (discovered fs))
                        (discovered fs) ++ post
    ∧ warnings r = flat_map file_warnings (discovered fs) ++ wpost
    ∧ Forall not_loop_msg pre ∧ Forall not_loop_msg post
    ∧ Forall not_loop_msg wpost.
Proof.
  unfold main, discovered.
  destruct (resources fs) as [| |d].
  - intros [= <-]. eexists [_], [], []. simpl.
    split_and!; try done. by repeat constructor.
  - intros [= <-]. eexists [_], [], []. simpl.
    split_and!; try done. by repeat constructor.
  - destruct (list_png_files d) as [|p pngs] eqn:Hl.
    + intros [= <-]. eexists [_], [], []. simpl.
      split_and!; try done. by repeat constructor.
    + destruct (check_allowlist _ _ _ _ _) as [[es ws]|] eqn:Hal; [|done].
      intros [= <-]. cbn [errors warnings].
      apply check_allowlist_adds in Hal as (post & wpost & -> & -> & Hp & Hw).
      destruct (check_fallback_adds (make_config args) d
                  (ls_errors (check_files (make_config args) initial (p :: pngs))))
        as (post' & -> & Hp').
      destruct (check_files_inv (make_config args) (p :: pngs))
        as (_ & -> & ->).
      exists [], (post' ++ post), wpost.
      rewrite <- app_assoc. split_and!; try done.
      by apply Forall_app.
Qed.

Lemma not_loop_msg_filters (l : list string) :
  Forall not_loop_msg l →
  List.filter is_invalid_msg l = []
  ∧ List.filter is_duplicate_msg l = []
  ∧ List.filter is_non_normalized_msg l = [].
Proof.
  intros H. split_and!; apply filter_none;
    (eapply Forall_impl; [exact H|]); intros e (H1 & H2 & H3).
  - exact H1.
  - exact H2.
  - exact H3.
Qed.

(** The errors of a run, kind by kind. *)
Lemma main_errors_kinds args fs r :
  main args fs = Returned r →
  List.filter is_invalid_msg (errors r)
  = flat_map (invalid_errors (make_config args)) (discovered fs)
  ∧ List.filter is_duplicate_msg (errors r)
    = flat_map (duplicate_errors (discovered fs)) (discovered fs)
  ∧ List.filter is_non_normalized_msg (errors r) = [].
Proof.
  intros Hrun.
  destruct (main_collections args fs r Hrun)
    as (pre & post & wpost & -> & _ & Hpre & Hpost & _).
  rewrite !List.filter_app.
  destruct (not_loop_msg_filters pre Hpre) as (-> & -> & ->).
  destruct (not_loop_msg_filters post Hpost) as (-> & -> & ->).
  destruct (loop_errors_kinds (make_config args) (discovered fs))
    as (-> & -> & ->).
  by rewrite !app_nil_r.
Qed.

(** ** Duplicates *)

Lemma names_both_three :
  main (plain_args false) three_cases
  = Returned {| exit_code := 2;
                errors := [msg_duplicate "us" "US.png" "Us.png";
                           msg_duplicate "us" "US.png" "us.png"];
                warnings := [msg_non_normalized "US.png" "us";
                             msg_non_normalized "Us.png" "us"] |}.
Proof. vm_compute. reflexivity. Qed.

(** C6 as stated fails.  With [US.png], [Us.png] and [us.png] in the
    directory, the two errors of the run name [US.png] with [Us.png] and
    [US.png] with [us.png]: no error names the pair [Us.png], [us.png]. *)
Lemma every_pair_reported_fails :
  ¬ every_pair_reported (plain_args false) three_cases.
Proof.
  intros H.
  specialize (H _ "Us.png" "us.png" names_both_three).
  assert (length (List.filter (names_both "Us.png" "us.png")
            [msg_duplicate "us" "US.png" "Us.png";
             msg_duplicate "us" "US.png" "us.png"]) = 0) as H0
    by (vm_compute; reflexivity).
  cbn [errors] in H. rewrite H0 in H.
  assert (0 = 1 → False) as Hne by lia. apply Hne, H.
  - vm_compute. apply list_elem_of_In. simpl. auto.
  - vm_compute. apply list_elem_of_In. simpl. auto.
  - done.
  - reflexivity.
Qed.

(** C6, amended.  [seen_normalized] maps every normalized code to the
    first discovered file with that code.  The duplicate errors of a
    run are, in the order of the files, one for each discovered file
    that is not the first file with its normalized code, naming that
    first file and the file itself; there is no other duplicate
    error. *)
Theorem later_files_reported_against_first (args : Args) (fs : FileSystem) :
  (∀ n, ls_seen (check_files (make_config args) initial (discovered fs)) !! n
        = first_file (discovered fs) n)
  ∧ (∀ p, p ∈ discovered fs →
       ∃ f, first_file (discovered fs) (code_of p) = Some f
            ∧ f ∈ discovered fs ∧ code_of f = code_of p
            ∧ duplicate_errors (discovered fs) p
              = if bool_decide (f ≠ p)
                then [msg_duplicate (code_of p) (Pathlib.name f) (Pathlib.name p)]
                else [])
  ∧ (∀ r, main args fs = Returned r →
       List.filter is_duplicate_msg (errors r)
       = flat_map (duplicate_errors (discovered fs)) (discovered fs)).
Proof.
  split_and!.
  - apply check_files_inv.
  - intros p Hp.
    destruct (first_file_is_Some _ _ Hp) as [f Hf]. exists f.
    destruct (first_file_elem _ _ _ Hf) as [Hin Hc].
    split_and!; try done. unfold duplicate_errors. by rewrite Hf.
  - intros r Hrun. by destruct (main_errors_kinds args fs r Hrun) as (_ & -> & _).
Qed.

Lemma later_files_reported_against_first_witness :
  List.filter is_duplicate_msg
    [msg_duplicate "us" "US.png" "Us.png"; msg_duplicate "us" "US.png" "us.png"]
  = flat_map (duplicate_errors (discovered three_cases)) (discovered three_cases).
Proof.
  exact (proj2 (proj2 (later_files_reported_against_first
                         (plain_args false) three_cases))
           _ names_both_three).
Defined.

(** ** Names that are not normalized *)

(** C7. Every discovered file whose stem differs from its normalized
    code gets the warning that advises the normalized name; these are
    all the warnings of that kind, and no error is of that kind.  The
    invalid-filename errors of the run are those of [validate_filename]
    on the normalized codes of the files, so a file whose raw stem only
    differs by case or surrounding white space from a valid code is not
    reported as invalid. *)
Theorem non_normalized_name_warns (args : Args) (fs : FileSystem) (r : Result) :
  main args fs = Returned r →
  (∀ p, p ∈ discovered fs → Pathlib.stem p ≠ code_of p →
        msg_non_normalized (Pathlib.name p) (code_of p) ∈ warnings r)
  ∧ List.filter is_non_normalized_msg (warnings r)
    = flat_map file_warnings (discovered fs)
  ∧ List.filter is_non_normalized_msg (errors r) = []
  ∧ List.filter is_invalid_msg (errors r)
    = flat_map (invalid_errors (make_config args)) (discovered fs).
Proof.
  intros Hrun.
  destruct (main_errors_kinds args fs r Hrun) as (Hinv & _ & Hnn).
  destruct (main_collections args fs r Hrun)
    as (pre & post & wpost & _ & Hw & _ & _ & Hwpost).
  split_and!; try done.
  - intros p Hp Hne. rewrite Hw. apply elem_of_app. left.
    apply list_elem_of_In, in_flat_map. exists p.
    split; [by apply list_elem_of_In|].
    unfold file_warnings. rewrite bool_decide_eq_true_2 by done. by left.
  - rewrite Hw, List.filter_app, filter_flat_map.
    destruct (not_loop_msg_filters wpost Hwpost) as (_ & _ & ->).
    rewrite app_nil_r. apply flat_map_ext_elem. intros p _.
    apply file_warnings_kind.
Qed.

Lemma non_normalized_name_warns_witness :
  msg_non_normalized "Us.png" "us"
  ∈ warnings {| exit_code := 0; errors := [];
                warnings := [msg_non_normalized "Us.png" "us"] |}.
Proof.
  refine (proj1 (non_normalized_name_warns (plain_args true)
                   {| resources := ResDirectory (dir_of ["Us.png"]);
                      allowlist_file := AllowAbsent |}
                   {| exit_code := 0; errors := [];
                      warnings := [msg_non_normalized "Us.png" "us"] |} _)
            "Us.png" _ _).
  - vm_compute. reflexivity.
  - vm_compute. apply list_elem_of_In. simpl. auto.
  - vm_compute. intros H. discriminate H.
Defined.

(** ** Allowlist coverage *)

Lemma elem_of_sorted (l : list string) c : c ∈ sorted l ↔ c ∈ l.
Proof. unfold sorted. by rewrite merge_sort_Permutation. Qed.

Lemma NoDup_sorted (l : list string) : NoDup l → NoDup (sorted l).
Proof. unfold sorted. by rewrite merge_sort_Permutation. Qed.

#[local] Instance str_le_total : Total Str.le.
Proof. intros a b. apply String.leb_total. Qed.

Lemma Sorted_sorted (l : list string) : Sorted Str.le (sorted l).
Proof. apply Sorted_merge_sort, _. Qed.

Lemma missing_codes_spec (required present : gset string) :
  (∀ c, c ∈ missing_codes required present ↔ c ∈ required ∧ c ∉ present)
  ∧ NoDup (missing_codes required present)
  ∧ Sorted Str.le (missing_codes required present).
Proof.
  unfold missing_codes. split_and!.
  - intros c. rewrite elem_of_sorted, list_elem_of_filter, elem_of_elements.
    tauto.
  - apply NoDup_sorted, NoDup_filter, NoDup_elements.
  - apply Sorted_sorted.
Qed.

Lemma extra_codes_spec (required present : gset string) :
  (∀ c, c ∈ extra_codes required present ↔ c ∈ present ∧ c ∉ required)
  ∧ NoDup (extra_codes required present)
  ∧ Sorted Str.le (extra_codes required present).
Proof.
  unfold extra_codes. split_and!.
  - intros c. rewrite elem_of_sorted, list_elem_of_filter, elem_of_elements.
    tauto.
  - apply NoDup_sorted, NoDup_filter, NoDup_elements.
  - apply Sorted_sorted.
Qed.

(** The text of the extras warning: at most 80 codes, then the count of
    the others when there are others. *)
Lemma msg_extra_shape (extra : list string) :
  ∃ shown more,
    msg_extra extra
    = ("Extra PNGs found not listed in allowlist (may be OK):" ++ item_sep
       ++ Str.join item_sep shown ++ more)%string
    ∧ shown = firstn 80 extra
    ∧ (length shown ≤ 80)%nat
    ∧ ((length extra ≤ 80)%nat → shown = extra ∧ more = "")
    ∧ ((80 < length extra)%nat →
       length shown = 80
       ∧ more = (NL ++ "  ...and " ++ Str.of_nat (length extra - 80)
                 ++ " more")%string).
Proof.
  eexists (firstn 80 extra), _. split; [reflexivity|].
  split; [done|]. rewrite length_firstn. split; [lia|]. split.
  - intros Hle. split; [by apply firstn_all2|].
    by rewrite (proj2 (Nat.leb_le _ _) Hle).
  - intros Hgt. split; [lia|].
    by rewrite (proj2 (Nat.leb_gt _ _) Hgt).
Qed.

(** Step 3 on a readable allowlist: one error for the required codes
    that are no key of [seen_normalized], one warning for the keys that
    the allowlist does not list. *)
Lemma check_allowlist_on_text
  (cfg : ValidationConfig) (path text : string) (seen : gmap string Path)
  (errs warns : list string) :
  allowlist_path cfg = Some path →
  (∀ c, c ∈ missing_codes (read_allowlist text) (dom seen)
        ↔ c ∈ read_allowlist text ∧ seen !! c = None)
  ∧ NoDup (missing_codes (read_allowlist text) (dom seen))
  ∧ (∀ c, c ∈ extra_codes (read_allowlist text) (dom seen)
          ↔ is_Some (seen !! c) ∧ c ∉ read_allowlist text)
  ∧ NoDup (extra_codes (read_allowlist text) (dom seen))
  ∧ check_allowlist cfg (AllowText text) seen errs warns
    = Some (errs
              ++ match missing_codes (read_allowlist text) (dom seen) with
                 | [] => []
                 | missing => [msg_missing missing]
                 end,
            warns
              ++ match extra_codes (read_allowlist text) (dom seen) with
                 | [] => []
                 | extra => [msg_extra extra]
                 end)
  ∧ (∀ missing, msg_missing missing
       = ("Missing PNGs for allowlist codes:" ++ item_sep
          ++ Str.join item_sep missing)%string)
  ∧ (∀ extra, ∃ shown more,
       msg_extra extra
       = ("Extra PNGs found not listed in allowlist (may be OK):" ++ item_sep
          ++ Str.join item_sep shown ++ more)%string
       ∧ shown = firstn 80 extra
       ∧ (length shown ≤ 80)%nat
       ∧ ((length extra ≤ 80)%nat → shown = extra ∧ more = "")
       ∧ ((80 < length extra)%nat →
          length shown = 80
          ∧ more = (NL ++ "  ...and " ++ Str.of_nat (length extra - 80)
                    ++ " more")%string)).
Proof.
  intros Hpath.
  destruct (missing_codes_spec (read_allowlist text) (dom seen))
    as (Hm & Hmnd & _).
  destruct (extra_codes_spec (read_allowlist text) (dom seen))
    as (Hx & Hxnd & _).
  split_and!; try done.
  - intros c. rewrite Hm, not_elem_of_dom. done.
  - intros c. rewrite Hx, elem_of_dom. done.
  - unfold check_allowlist. rewrite Hpath.
    destruct (missing_codes _ _), (extra_codes _ _);
      by rewrite ?app_nil_r.
  - apply msg_extra_shape.
Qed.

(** Normalization is idempotent. *)

Lemma lower_char_idemp c : Str.lower_char (Str.lower_char c) = Str.lower_char c.
Proof. by destruct c as [[] [] [] [] [] [] [] []]. Qed.

Lemma lower_idemp s : Str.lower (Str.lower s) = Str.lower s.
Proof. induction s as [|c s IH]; simpl; [done|]. by rewrite lower_char_idemp, IH. Qed.

Lemma lstrip_lower s : Str.lstrip (Str.lower s) = Str.lower (Str.lstrip s).
Proof.
  induction s as [|c s IH]; simpl; [done|].
  rewrite is_space_lower_char. by destruct (Str.is_space c).
Qed.

Lemma rstrip_lower s : Str.rstrip (Str.lower s) = Str.lower (Str.rstrip s).
Proof.
  induction s as [|c s IH]; simpl; [done|].
  rewrite IH, is_space_lower_char.
  destruct (Str.rstrip s); simpl; [by destruct (Str.is_space c) | done].
Qed.

Lemma rstrip_cons c s :
  Str.rstrip (String c s) =
  match Str.rstrip s with
  | EmptyString => if Str.is_space c then EmptyString else String c EmptyString
  | r => String c r
  end.
Proof. done. Qed.

Lemma rstrip_idemp s : Str.rstrip (Str.rstrip s) = Str.rstrip s.
Proof.
  induction s as [|c s IH]; [done|].
  rewrite rstrip_cons.
  destruct (Str.rstrip s) as [|b r] eqn:Hr.
  - destruct (Str.is_space c) eqn:Hc; simpl; [done | by rewrite Hc].
  - by rewrite rstrip_cons, IH.
Qed.

Lemma lstrip_head s :
  Str.lstrip s = "" ∨ ∃ a r, Str.lstrip s = String a r ∧ Str.is_space a = false.
Proof.
  induction s as [|c s IH]; simpl; [by left|].
  destruct (Str.is_space c) eqn:Hc; [done|]. right. by exists c, s.
Qed.

Lemma lstrip_rstrip_lstrip s :
  Str.lstrip (Str.rstrip (Str.lstrip s)) = Str.rstrip (Str.lstrip s).
Proof.
  destruct (lstrip_head s) as [->|(a & r & -> & Ha)]; [done|].
  rewrite rstrip_cons. destruct (Str.rstrip r); rewrite ?Ha; simpl; by rewrite Ha.
Qed.

Lemma strip_idemp s : Str.strip (Str.strip s) = Str.strip s.
Proof. unfold Str.strip. by rewrite lstrip_rstrip_lstrip, rstrip_idemp. Qed.

Lemma strip_lower s : Str.strip (Str.lower s) = Str.lower (Str.strip s).
Proof. unfold Str.strip. by rewrite lstrip_lower, rstrip_lower. Qed.

Lemma normalize_idemp s : normalize (normalize s) = normalize s.
Proof.
  unfold normalize. by rewrite strip_lower, lower_idemp, strip_idemp.
Qed.

Lemma read_allowlist_normalized text c :
  c ∈ read_allowlist text → normalize c = c.
Proof.
  unfold read_allowlist.
  assert (∀ l (acc : gset string),
            (∀ c, c ∈ acc → normalize c = c) →
            ∀ c, c ∈ foldl read_allowlist_step acc l → normalize c = c) as H.
  { induction l as [|raw l IH]; intros acc Hacc; simpl; [done|].
    apply IH. intros c'. unfold read_allowlist_step.
    destruct (_ || _); [by apply Hacc|].
    rewrite elem_of_union, elem_of_singleton.
    intros [->|Hc']; [apply normalize_idemp | by apply Hacc]. }
  apply H. intros c'. by rewrite elem_of_empty.
Qed.

Lemma dom_seen cfg pngs c :
  c ∈ dom (ls_seen (check_files cfg initial pngs))
  ↔ ∃ p, p ∈ pngs ∧ code_of p = c.
Proof.
  rewrite elem_of_dom.
  destruct (check_files_inv cfg pngs) as (-> & _ & _). split.
  - intros [f Hf]. exists f. by apply first_file_elem.
  - intros (p & Hp & <-). by apply first_file_is_Some.
Qed.

(** C10. The keys of [seen_normalized] after the loop are the normalized
    codes of the discovered files, and the required codes read from the
    allowlist are normalized too.  A required code is listed as missing
    exactly when no discovered file has it as normalized code, so a file
    whose raw name differs only by case or surrounding white space
    satisfies it.  A code is listed as extra exactly when some file
    normalizes to it and the allowlist does not have it.  Neither list
    repeats a code, however many files share it. *)
Theorem allowlist_compares_normalized_codes
  (cfg : ValidationConfig) (pngs : list Path) (text : string) :
  (∀ c, c ∈ dom (ls_seen (check_files cfg initial pngs))
        ↔ ∃ p, p ∈ pngs ∧ code_of p = c)
  ∧ (∀ c, c ∈ read_allowlist text → normalize c = c)
  ∧ (∀ p, p ∈ pngs →
       code_of p ∉ missing_codes (read_allowlist text)
                     (dom (ls_seen (check_files cfg initial pngs))))
  ∧ (∀ c, c ∈ missing_codes (read_allowlist text)
                 (dom (ls_seen (check_files cfg initial pngs)))
          ↔ c ∈ read_allowlist text ∧ ∀ p, p ∈ pngs → code_of p ≠ c)
  ∧ (∀ c, c ∈ extra_codes (read_allowlist text)
                 (dom (ls_seen (check_files cfg initial pngs)))
          ↔ (∃ p, p ∈ pngs ∧ code_of p = c) ∧ c ∉ read_allowlist text)
  ∧ NoDup (missing_codes (read_allowlist text)
             (dom (ls_seen (check_files cfg initial pngs))))
  ∧ NoDup (extra_codes (read_allowlist text)
             (dom (ls_seen (check_files cfg initial pngs)))).
Proof.
  destruct (missing_codes_spec (read_allowlist text)
              (dom (ls_seen (check_files cfg initial pngs))))
    as (Hm & Hmnd & _).
  destruct (extra_codes_spec (read_allowlist text)
              (dom (ls_seen (check_files cfg initial pngs))))
    as (Hx & Hxnd & _).
  split_and!; try done.
  - apply dom_seen.
  - apply read_allowlist_normalized.
  - intros p Hp. rewrite Hm, dom_seen. intros [_ Hno]. apply Hno. by exists p.
  - intros c. rewrite Hm, dom_seen. split.
    + intros [Hreq Hno]. split; [done|]. intros p Hp Hc. apply Hno. by exists p.
    + intros [Hreq Hno]. split; [done|]. intros (p & Hp & Hc). by apply (Hno p).
  - intros c. by rewrite Hx, dom_seen.
Qed.

Example allowlist_three_files_one_code :
  missing_codes (read_allowlist allowlist_text)
    (dom (ls_seen (check_files (make_config allowlist_args) initial
                     ["FR.png"; "US.png"; "Us.png"; " gb.png"; "fr.png"; "us.png"])))
  = ["xx"]
  ∧ extra_codes (read_allowlist allowlist_text)
      (dom (ls_seen (check_files (make_config allowlist_args) initial
                       ["FR.png"; "US.png"; "Us.png"; " gb.png"; "fr.png"; "us.png"])))
    = ["fr"].
Proof. split; vm_compute; reflexivity. Qed.

(** ** The fallback asset *)

Lemma truthy_true s : s ≠ "" → truthy s = true.
Proof. intros H. unfold truthy. by destruct (String.eqb_spec s ""). Qed.

Lemma blank_fallback_run :
  main blank_fallback_args
       {| resources := ResDirectory (dir_of ["us.png"]);
          allowlist_file := AllowAbsent |}
  = Returned {| exit_code := 0; errors := []; warnings := [] |}
  ∧ child_exists (dir_of ["us.png"]) ".png" = false
  ∧ extra_allowed_codes (make_config blank_fallback_args) = {[ "" ]}.
Proof. split_and!; vm_compute; reflexivity. Qed.

(** C9 as stated fails.  With a fallback code of one space the
    normalized code is empty: step 2 is skipped and records nothing,
    although no file [.png] exists in the directory. *)
Lemma fallback_rule_always_fails :
  ¬ fallback_rule_always blank_fallback_args (dir_of ["us.png"]) [].
Proof.
  intros H. destruct (H " " eq_refl) as [_ H2].
  vm_compute in H2. discriminate H2.
Qed.

Lemma file_errors_not_fallback cfg pngs :
  Forall (λ e, is_fallback_msg e = false) (flat_map (file_errors cfg pngs) pngs).
Proof.
  apply Forall_forall. intros e He.
  apply list_elem_of_In, in_flat_map in He as (p & _ & He).
  unfold file_errors, invalid_errors, duplicate_errors in He.
  apply in_app_or in He as [He|He].
  - destruct (validate_filename _ _) as [[] ?]; [done|].
    by destruct He as [<-|[]].
  - destruct (first_file _ _); [|done].
    destruct (bool_decide _); [|done]. by destruct He as [<-|[]].
Qed.

Lemma check_allowlist_not_fallback cfg af seen errs warns es ws :
  check_allowlist cfg af seen errs warns = Some (es, ws) →
  ∃ post, es = errs ++ post ∧ Forall (λ e, is_fallback_msg e = false) post.
Proof.
  unfold check_allowlist.
  destruct (allowlist_path cfg) as [path|].
  - destruct af as [| |text]; [| done |].
    + intros [= <- <-]. eexists [_]. split; [done|]. by repeat constructor.
    + intros [= <- <-].
      destruct (missing_codes _ _) as [|m ms].
      * exists []. by rewrite app_nil_r.
      * eexists [_]. split; [done|]. by repeat constructor.
  - intros [= <- <-]. exists []. by rewrite app_nil_r.
Qed.

(** C9, amended.  A fallback code whose normalized form is not empty is
    added in normalized form to the extra-allowed set, and step 2 adds
    the missing-fallback error exactly when [resources_dir / (code +
    ".png")] does not exist, whatever the errors recorded before it.  In
    a run that reaches the checks, this error is the one fallback error
    among the errors of the run when the file does not exist, and there
    is none when it exists. *)
Theorem fallback_checked_when_not_blank
  (args : Args) (d : Directory) (code : string) :
  arg_require_fallback args = Some code →
  normalize code ≠ "" →
  (∀ errs, fallback_rule args d errs code)
  ∧ (∀ fs r,
       resources fs = ResDirectory d → list_png_files d ≠ [] →
       main args fs = Returned r →
       List.filter is_fallback_msg (errors r)
       = if child_exists d (normalize code ++ ".png")%string then []
         else [msg_missing_fallback
                 (basename (normalize code ++ ".png")%string)]).
Proof.
  intros Hcode Hnorm.
  assert (truthy code = true) as Hcode_truthy.
  { apply truthy_true. intros ->. by apply Hnorm. }
  assert (∀ errs, fallback_rule args d errs code) as Hrule.
  { intros errs. unfold fallback_rule, make_config, check_fallback. simpl.
    rewrite Hcode, Hcode_truthy, (truthy_true _ Hnorm).
    split; [apply elem_of_union_l; by apply elem_of_singleton | done]. }
  split; [done|].
  intros fs r Hres Hne. rewrite (main_reaches_checks args fs d Hres Hne).
  cbv zeta.
  destruct (check_allowlist _ _ _ _ _) as [[es ws]|] eqn:Hal; [|done].
  intros [= <-]. cbn [errors].
  apply check_allowlist_not_fallback in Hal as (post & -> & Hpost).
  destruct (Hrule (ls_errors (check_files (make_config args) initial
                                (list_png_files d)))) as [_ ->].
  destruct (check_files_inv (make_config args) (list_png_files d))
    as (_ & -> & _).
  pose proof (filter_none _ _ (file_errors_not_fallback (make_config args)
                                 (list_png_files d))) as Hloop.
  pose proof (filter_none _ _ Hpost) as Hpost'.
  destruct (child_exists d _).
  - by rewrite List.filter_app, Hloop, Hpost'.
  - by rewrite !List.filter_app, Hloop, Hpost'.
Qed.

Lemma fallback_checked_when_not_blank_witness :
  fallback_rule padded_fallback_args (dir_of ["us.png"]) [] " XX ".
Proof.
  refine (proj1 (fallback_checked_when_not_blank padded_fallback_args
                   (dir_of ["us.png"]) " XX " eq_refl _) []).
  vm_compute. intros H. discriminate H.
Defined.

Lemma allowlist_compares_normalized_codes_witness :
  code_of "US.png"
  ∉ missing_codes (read_allowlist allowlist_text)
      (dom (ls_seen (check_files (make_config allowlist_args) initial
                       ["US.png"; " gb.png"]))).
Proof.
  refine (proj1 (proj2 (proj2 (allowlist_compares_normalized_codes
                                 (make_config allowlist_args)
                                 ["US.png"; " gb.png"] allowlist_text)))
            "US.png" _).
  apply list_elem_of_In. simpl. auto.
Defined.

(* ===================================================================== *)
(** * Further properties of the script                                   *)
(* ===================================================================== *)

(** ** Normalization and the allowlist file *)

(** X1. Normalizing a code twice gives what normalizing it once gives:
    [code.strip().lower()] leaves an already normalized code as it is. *)
Theorem normalize_idempotent (code : string) :
  normalize (normalize code) = normalize code.
Proof.
  unfold normalize. by rewrite strip_lower, lower_idemp, strip_idemp.
Qed.

Lemma read_allowlist_step_elem (acc : gset string) (x c : string) :
  c ∈ read_allowlist_step acc x
  ↔ c ∈ acc
    ∨ (c = normalize x ∧ c ≠ "" ∧ Str.startswith "#" c = false).
Proof.
  unfold read_allowlist_step. fold (normalize x).
  unfold truthy. rewrite negb_involutive.
  destruct (String.eqb_spec (normalize x) "") as [He|He]; cbn [orb].
  - split; [by left|]. intros [H|(-> & Hne & _)]; [done | congruence].
  - destruct (Str.startswith "#" (normalize x)) eqn:Hs.
    + split; [by left|]. intros [H|(-> & _ & Hs')]; [done | congruence].
    + rewrite elem_of_union, elem_of_singleton. split.
      * intros [->|H]; [by right | by left].
      * intros [H|(-> & _ & _)]; [by right | by left].
Qed.

Lemma foldl_read_allowlist_step (l : list string) (acc : gset string) c :
  c ∈ foldl read_allowlist_step acc l
  ↔ c ∈ acc
    ∨ ∃ raw, raw ∈ l ∧ c = normalize raw ∧ c ≠ ""
             ∧ Str.startswith "#" c = false.
Proof.
  revert acc. induction l as [|x l IH]; intros acc; simpl.
  - split; [by left|]. intros [H|(raw & Hraw & _)]; [done|].
    by apply elem_of_nil in Hraw.
  - rewrite IH, read_allowlist_step_elem. split.
    + intros [[H|H]|(raw & Hraw & H)].
      * by left.
      * right. exists x. split; [by left | done].
      * right. exists raw. split; [by right | done].
    + intros [H|(raw & Hraw & H)]; [left; by left|].
      apply elem_of_cons in Hraw as [->|Hraw].
      * left. by right.
      * right. by exists raw.
Qed.

(** X2. The codes [read_allowlist] returns are the normalized lines of
    the text that are not empty and do not start with [#]: blank lines
    and comment lines, also indented ones, give no code, and every other
    line gives its trimmed, lower-cased form. *)
Theorem read_allowlist_codes (text : string) (c : string) :
  c ∈ read_allowlist text
  ↔ ∃ raw, raw ∈ Str.splitlines text ∧ c = normalize raw ∧ c ≠ ""
           ∧ Str.startswith "#" c = false.
Proof.
  unfold read_allowlist. rewrite foldl_read_allowlist_step.
  rewrite elem_of_empty. tauto.
Qed.

(** ** The files a run looks at *)

Lemma list_png_files_elem d p :
  p ∈ list_png_files d
  ↔ p ∈ iterdir d ∧ is_file d p = true
    ∧ Str.lower (Pathlib.suffix p) = ".png".
Proof.
  unfold list_png_files. rewrite merge_sort_Permutation.
  rewrite list_elem_of_In, filter_In, <- list_elem_of_In.
  rewrite andb_true_iff, String.eqb_eq. tauto.
Qed.

Lemma NoDup_list_filter {A} (f : A → bool) (l : list A) :
  NoDup l → NoDup (List.filter f l).
Proof.
  induction 1 as [|x l Hx Hl IH]; simpl; [constructor|].
  destruct (f x); [|done]. constructor; [|done].
  intros Hin. apply Hx.
  apply list_elem_of_In, filter_In in Hin as [Hin _].
  by apply list_elem_of_In.
Qed.

(** X3. [list_png_files] returns exactly the entries of the directory
    that are regular files and whose suffix is [.png] in any case, in
    ascending order of their names; it lists no entry twice when the
    directory does not. *)
Theorem list_png_files_sorted_png_files (d : Directory) :
  (∀ p, p ∈ list_png_files d
        ↔ p ∈ iterdir d ∧ is_file d p = true
          ∧ Str.lower (Pathlib.suffix p) = ".png")
  ∧ Sorted Str.le (list_png_files d)
  ∧ (NoDup (iterdir d) → NoDup (list_png_files d)).
Proof.
  split_and!.
  - apply list_png_files_elem.
  - unfold list_png_files. apply Sorted_merge_sort, _.
  - intros Hnd. unfold list_png_files. rewrite merge_sort_Permutation.
    by apply NoDup_list_filter.
Qed.

Lemma list_png_files_sorted_png_files_witness :
  NoDup (list_png_files (dir_of ["us.png"; "notes.txt"; "GB.PNG"])).
Proof.
  refine (proj2 (proj2 (list_png_files_sorted_png_files
                          (dir_of ["us.png"; "notes.txt"; "GB.PNG"]))) _).
  simpl. apply (bool_decide_unpack _). vm_compute. exact I.
Defined.

Lemma substring_whole s : substring 0 (String.length s) s = s.
Proof. induction s as [|c s IH]; simpl; [done | by rewrite IH]. Qed.

Lemma substring_split i s :
  (i ≤ String.length s)%nat →
  (substring 0 i s ++ substring i (String.length s - i) s)%string = s.
Proof.
  revert s. induction i as [|i IH]; intros s Hi.
  - rewrite Nat.sub_0_r, substring_whole. by destruct s.
  - destruct s as [|c s]; simpl in *; [lia|].
    rewrite IH by lia. done.
Qed.

Lemma length_substring_prefix i s :
  (i ≤ String.length s)%nat → String.length (substring 0 i s) = i.
Proof.
  revert s. induction i as [|i IH]; intros s Hi.
  - by destruct s.
  - destruct s as [|c s]; simpl in *; [lia|]. by rewrite IH by lia.
Qed.

Lemma length_lower s : String.length (Str.lower s) = String.length s.
Proof. induction s as [|c s IH]; simpl; [done | by rewrite IH]. Qed.

Lemma splits_at_bounds nm i :
  Pathlib.splits_at nm = Some i → (0 < i ∧ i < String.length nm - 1)%nat.
Proof.
  unfold Pathlib.splits_at. destruct (Pathlib.rfind_dot nm) as [j|]; [|done].
  destruct (_ && _) eqn:Hc; [|done]. intros [= <-].
  apply andb_true_iff in Hc as [H1 H2].
  apply Nat.ltb_lt in H1, H2. done.
Qed.

(** X4. The name of every file that [list_png_files] returns is its
    stem followed by its suffix; the stem, which the loop takes as the
    code of the file, is not empty, and the suffix has four
    characters. *)
Theorem discovered_name_is_stem_and_suffix (d : Directory) (p : Path) :
  p ∈ list_png_files d →
  Pathlib.name p = (Pathlib.stem p ++ Pathlib.suffix p)%string
  ∧ Pathlib.stem p ≠ ""
  ∧ String.length (Pathlib.suffix p) = 4.
Proof.
  intros Hp. apply list_png_files_elem in Hp as (_ & _ & Hs).
  assert (String.length (Pathlib.suffix p) = 4) as Hlen
    by (by rewrite <- length_lower, Hs).
  revert Hs Hlen. unfold Pathlib.suffix, Pathlib.stem.
  destruct (Pathlib.splits_at (Pathlib.name p)) as [i|] eqn:Hi; [|done].
  apply splits_at_bounds in Hi as [Hi1 Hi2]. intros _ Hlen.
  split_and!; [| |done].
  - symmetry. apply substring_split. lia.
  - intros He.
    assert (String.length (substring 0 i (Pathlib.name p)) = i) as Hl
      by (apply length_substring_prefix; lia).
    rewrite He in Hl. simpl in Hl. lia.
Qed.

Lemma discovered_name_is_stem_and_suffix_witness :
  Pathlib.name "Us.PNG" = (Pathlib.stem "Us.PNG" ++ Pathlib.suffix "Us.PNG")%string
  ∧ Pathlib.stem "Us.PNG" ≠ ""
  ∧ String.length (Pathlib.suffix "Us.PNG") = 4.
Proof.
  apply (discovered_name_is_stem_and_suffix (dir_of ["Us.PNG"; ".png"])).
  vm_compute. apply list_elem_of_In. simpl. auto.
Defined.

(** ** What [report] prints *)

Lemma eprint_items_spec out l :
  eprint_items out l
  = {| stdout := stdout out;
       stderr := stderr out ++ map (λ x, ("- " ++ x)%string) l |}.
Proof.
  unfold eprint_items. revert out.
  induction l as [|x l IH]; intros out; simpl.
  - rewrite app_nil_r. by destruct out.
  - rewrite IH. simpl. by rewrite <- app_assoc.
Qed.

(** What [report] adds to the two streams. *)
Lemma report_spec (errors warnings : list string) (out : Output) :
  stdout (report errors warnings out)
  = stdout out ++ match errors with [] => ["Validation OK."] | _ => [] end
  ∧ stderr (report errors warnings out)
    = stderr out
      ++ match warnings with
         | [] => []
         | _ => "==> WARNINGS:" :: map (λ w, ("- " ++ w)%string) warnings
         end
      ++ match errors with
         | [] => []
         | _ => (NL ++ "==> ERRORS:")%string
                :: map (λ e, ("- " ++ e)%string) errors
                ++ [(NL ++ "Validation FAILED.")%string]
         end.
Proof.
  unfold report.
  destruct warnings as [|w ws], errors as [|e es];
    rewrite ?eprint_items_spec; simpl;
    rewrite ?app_nil_r, <- ?app_assoc; done.
Qed.

(** X5. [report] prints the line [Validation OK.] on the standard
    output exactly when there is no error, and nothing else there.  On
    the standard error stream it prints, after what was there, the
    warnings under their heading when there are warnings, then the
    errors under their heading and the failure notice when there are
    errors; every warning and every error appears once, in order, as
    an item starting with a dash. *)
Theorem report_prints (errors warnings : list string) (out : Output) :
  stdout (report errors warnings out)
  = stdout out ++ match errors with [] => ["Validation OK."] | _ => [] end
  ∧ stderr (report errors warnings out)
    = stderr out
      ++ match warnings with
         | [] => []
         | _ => "==> WARNINGS:" :: map (λ w, ("- " ++ w)%string) warnings
         end
      ++ match errors with
         | [] => []
         | _ => (NL ++ "==> ERRORS:")%string
                :: map (λ e, ("- " ++ e)%string) errors
                ++ [(NL ++ "Validation FAILED.")%string]
         end.
Proof. apply report_spec. Qed.

(** ** A run that reaches the checks *)

Lemma check_fallback_app cfg d errs :
  check_fallback cfg d errs = errs ++ fallback_errors cfg d.
Proof.
  unfold fallback_errors, check_fallback.
  destruct (require_fallback_code cfg) as [code|]; [|by rewrite app_nil_r].
  destruct (truthy code); [|by rewrite app_nil_r].
  destruct (child_exists d _); [by rewrite app_nil_r | done].
Qed.

Lemma check_allowlist_app cfg af seen errs warns :
  check_allowlist cfg af seen errs warns =
  match allowlist_path cfg, af with
  | Some _, AllowUnreadable => None
  | _, _ => Some (errs ++ allowlist_errors cfg af (dom seen),
                  warns ++ allowlist_warnings cfg af (dom seen))
  end.
Proof.
  unfold check_allowlist, allowlist_errors, allowlist_warnings.
  destruct (allowlist_path cfg) as [path|]; [|by rewrite !app_nil_r].
  destruct af as [| |text]; [by rewrite app_nil_r | done |].
  destruct (missing_codes _ _), (extra_codes _ _); by rewrite ?app_nil_r.
Qed.

Lemma dom_seen_codes_of cfg pngs :
  dom (ls_seen (check_files cfg initial pngs)) = codes_of pngs.
Proof.
  apply set_eq. intros c. rewrite dom_seen. unfold codes_of.
  rewrite elem_of_list_to_set, list_elem_of_In, in_map_iff.
  split.
  - intros (p & Hp & Hc). exists p. split; [done | by apply list_elem_of_In].
  - intros (p & Hc & Hp). exists p. split; [by apply list_elem_of_In | done].
Qed.

(** The result of a run that reaches the checks. *)
Lemma main_reached
  (args : Args) (fs : FileSystem) (d : Directory) :
  resources fs = ResDirectory d →
  list_png_files d ≠ [] →
  (arg_allowlist args = None ∨ allowlist_file fs ≠ AllowUnreadable) →
  main args fs
  = Returned
      {| exit_code :=
           final_code
             (flat_map (file_errors (make_config args) (list_png_files d))
                (list_png_files d)
              ++ fallback_errors (make_config args) d
              ++ allowlist_errors (make_config args) (allowlist_file fs)
                   (codes_of (list_png_files d)));
         errors :=
           flat_map (file_errors (make_config args) (list_png_files d))
             (list_png_files d)
           ++ fallback_errors (make_config args) d
           ++ allowlist_errors (make_config args) (allowlist_file fs)
                (codes_of (list_png_files d));
         warnings :=
           flat_map file_warnings (list_png_files d)
           ++ allowlist_warnings (make_config args) (allowlist_file fs)
                (codes_of (list_png_files d)) |}.
Proof.
  intros Hres Hne Hal.
  rewrite (main_reaches_checks args fs d Hres Hne). cbv zeta.
  rewrite check_allowlist_app, check_fallback_app, dom_seen_codes_of.
  destruct (check_files_inv (make_config args) (list_png_files d))
    as (_ & -> & ->).
  rewrite <- app_assoc.
  change (allowlist_path (make_config args)) with (arg_allowlist args).
  destruct Hal as [->|Hal]; [done|].
  destruct (arg_allowlist args); [|done].
  by destruct (allowlist_file fs).
Qed.

(** X6. When the resources directory holds at least one PNG file and
    reading the allowlist does not raise, the run returns, in this
    order, the errors of every file (invalid name, then duplicate), the
    fallback error and the allowlist error, and as warnings those of
    every file followed by the allowlist warning: no finding stops the
    later checks.  The exit code is 0 when that list of errors is empty
    and 2 otherwise. *)
Theorem main_accumulates_all_findings
  (args : Args) (fs : FileSystem) (d : Directory) :
  resources fs = ResDirectory d →
  list_png_files d ≠ [] →
  (arg_allowlist args = None ∨ allowlist_file fs ≠ AllowUnreadable) →
  main args fs
  = Returned
      {| exit_code :=
           final_code
             (flat_map (file_errors (make_config args) (list_png_files d))
                (list_png_files d)
              ++ fallback_errors (make_config args) d
              ++ allowlist_errors (make_config args) (allowlist_file fs)
                   (codes_of (list_png_files d)));
         errors :=
           flat_map (file_errors (make_config args) (list_png_files d))
             (list_png_files d)
           ++ fallback_errors (make_config args) d
           ++ allowlist_errors (make_config args) (allowlist_file fs)
                (codes_of (list_png_files d));
         warnings :=
           flat_map file_warnings (list_png_files d)
           ++ allowlist_warnings (make_config args) (allowlist_file fs)
                (codes_of (list_png_files d)) |}.
Proof. apply main_reached. Qed.

Lemma main_accumulates_all_findings_witness :
  main demanding_args
       {| resources := ResDirectory (dir_of ["US.png"; "flag-1.png"; "us.png"]);
          allowlist_file := AllowAbsent |}
  = Returned
      {| exit_code := 2;
         errors := [msg_invalid "flag-1.png" (Some reason_alpha2);
                    msg_duplicate "us" "US.png" "us.png";
                    msg_missing_fallback "xx.png";
                    msg_allowlist_absent "allowed_codes.txt"];
         warnings := [msg_non_normalized "US.png" "us"] |}.
Proof.
  rewrite (main_accumulates_all_findings demanding_args
             {| resources := ResDirectory (dir_of ["US.png"; "flag-1.png"; "us.png"]);
                allowlist_file := AllowAbsent |}
             (dir_of ["US.png"; "flag-1.png"; "us.png"]) eq_refl).
  - vm_compute. reflexivity.
  - vm_compute. intros H. discriminate H.
  - right. intros H. discriminate H.
Defined.

(** ** Exit code and printed lines *)

Lemma main_exit_code args fs r :
  main args fs = Returned r → exit_code r = final_code (errors r).
Proof.
  unfold main. destruct (resources fs) as [| |d]; try by intros [= <-].
  destruct (list_png_files d); [by intros [= <-]|].
  destruct (check_allowlist _ _ _ _ _) as [[es ws]|]; [|done].
  by intros [= <-].
Qed.

Lemma last_elem {A} (l : list A) (x : A) : last l = Some x → x ∈ l.
Proof.
  intros H. apply last_Some in H as [l' ->]. apply elem_of_app. right. by left.
Qed.

Lemma warnings_part_no_failure_notice (warnings : list string) :
  (NL ++ "Validation FAILED.")%string
  ∉ match warnings with
    | [] => []
    | _ => "==> WARNINGS:" :: map (λ w, ("- " ++ w)%string) warnings
    end.
Proof.
  destruct warnings as [|w ws]; [by apply not_elem_of_nil|].
  intros Hin. apply elem_of_cons in Hin as [Hin|Hin]; [done|].
  apply list_elem_of_In, in_map_iff in Hin as (x & Hx & _). done.
Qed.

(** X8. What the shell sees of a run that returns: the exit code is 0 or
    2; it is 0 exactly when the only line on the standard output is
    [Validation OK.], and 2 exactly when the standard output is empty,
    which is also exactly when the last line on the standard error
    stream is the failure notice. *)
Theorem run_exit_code_matches_output
  (args : Args) (fs : FileSystem) (out : Output) (code : Z) :
  run args fs = Some (out, code) →
  (code = 0%Z ∨ code = 2%Z)
  ∧ (code = 0%Z ↔ stdout out = ["Validation OK."])
  ∧ (code = 2%Z ↔ stdout out = [])
  ∧ (code = 2%Z
     ↔ last (stderr out) = Some (NL ++ "Validation FAILED.")%string).
Proof.
  unfold run. destruct (main args fs) as [r|] eqn:Hrun; [|done].
  intros [= <- <-]. rewrite (main_exit_code _ _ _ Hrun).
  destruct (report_spec (errors r) (warnings r) no_output) as [-> ->].
  simpl. destruct (errors r) as [|e es]; simpl.
  - rewrite app_nil_r. split_and!; try done; [by left|].
    split; [done|]. intros Hlast.
    destruct (warnings_part_no_failure_notice (warnings r)).
    exact (last_elem _ _ Hlast).
  - split_and!; try done; [by right|]. split; [|done]. intros _.
    rewrite !app_comm_cons, app_assoc. apply last_snoc.
Qed.

Lemma run_exit_code_matches_output_witness :
  stdout {| stdout := ["Validation OK."];
            stderr := ["==> WARNINGS:";
                       ("- " ++ msg_non_normalized "Us.png" "us")%string] |}
  = ["Validation OK."].
Proof.
  refine (proj1 (proj1 (proj2 (run_exit_code_matches_output (plain_args false)
            {| resources := ResDirectory (dir_of ["Us.png"]);
               allowlist_file := AllowAbsent |}
            {| stdout := ["Validation OK."];
               stderr := ["==> WARNINGS:";
                          ("- " ++ msg_non_normalized "Us.png" "us")%string] |}
            0%Z _))) eq_refl).
  vm_compute. reflexivity.
Defined.

(** ** When a run succeeds *)

Lemma flat_map_eq_nil {A B} (f : A → list B) (l : list A) :
  flat_map f l = [] ↔ ∀ x, x ∈ l → f x = [].
Proof.
  induction l as [|x l IH]; simpl.
  - split; [|done]. intros _ y Hy. by apply elem_of_nil in Hy.
  - rewrite app_nil, IH. split.
    + intros [Hx Hl] y Hy. apply elem_of_cons in Hy as [->|Hy]; auto.
    + intros H. split; [apply H; by left|]. intros y Hy. apply H. by right.
Qed.

Lemma invalid_errors_nil cfg p :
  invalid_errors cfg p = [] ↔ fst (validate_filename (code_of p) cfg) = true.
Proof.
  unfold invalid_errors.
  by destruct (validate_filename (code_of p) cfg) as [[] reason].
Qed.

Lemma duplicate_errors_all_nil pngs :
  (∀ p, p ∈ pngs → duplicate_errors pngs p = [])
  ↔ ∀ p q, p ∈ pngs → q ∈ pngs → code_of p = code_of q → p = q.
Proof.
  assert (∀ p, p ∈ pngs →
            (duplicate_errors pngs p = [] ↔ first_file pngs (code_of p) = Some p))
    as Hone.
  { intros p Hp. unfold duplicate_errors.
    destruct (first_file_is_Some pngs p Hp) as [f ->].
    destruct (bool_decide_reflect (f ≠ p)) as [Hne|Heq].
    - split; [done|]. intros [= ->]. by destruct Hne.
    - split; [|done]. intros _. f_equal. by destruct (decide (f = p)). }
  split.
  - intros H p q Hp Hq Hc.
    pose proof (proj1 (Hone p Hp) (H p Hp)) as H1.
    pose proof (proj1 (Hone q Hq) (H q Hq)) as H2.
    rewrite Hc in H1. congruence.
  - intros H p Hp. apply Hone; [done|].
    destruct (first_file_is_Some pngs p Hp) as [f Hf]. rewrite Hf. f_equal.
    destruct (first_file_elem _ _ _ Hf) as [Hin Hc]. by apply H.
Qed.

Lemma fallback_errors_nil args d :
  fallback_errors (make_config args) d = []
  ↔ ∀ code, arg_require_fallback args = Some code → normalize code ≠ "" →
            child_exists d (normalize code ++ ".png")%string = true.
Proof.
  unfold fallback_errors, check_fallback, make_config. simpl.
  destruct (arg_require_fallback args) as [code|]; [|done].
  unfold truthy at 1.
  destruct (String.eqb_spec code "") as [->|Hcode]; simpl.
  - split; [|done]. intros _ code' [= <-] Hn. by destruct Hn.
  - unfold truthy.
    destruct (String.eqb_spec (normalize code) "") as [Hn|Hn]; simpl.
    + split; [|done]. intros _ code' [= <-] Hn'. by destruct Hn'.
    + destruct (child_exists d _) eqn:Hex.
      * split; [|done]. by intros _ code' [= <-] _.
      * split; [done|]. intros H. specialize (H code eq_refl Hn). congruence.
Qed.

Lemma missing_codes_nil (required present : gset string) :
  missing_codes required present = [] ↔ ∀ c, c ∈ required → c ∈ present.
Proof.
  destruct (missing_codes_spec required present) as (Hm & _ & _). split.
  - intros Hnil c Hc. destruct (decide (c ∈ present)) as [|Hno]; [done|].
    assert (c ∈ missing_codes required present) as Hin by (by apply Hm).
    rewrite Hnil in Hin. by apply elem_of_nil in Hin.
  - intros H. destruct (missing_codes required present) as [|c l] eqn:Hl; [done|].
    assert (c ∈ c :: l) as Hin by left.
    apply Hm in Hin as [Hreq Hno]. destruct Hno. by apply H.
Qed.

Lemma final_code_zero (es : list string) : final_code es = 0%Z ↔ es = [].
Proof. by destruct es. Qed.

(** X9. A run over a directory that holds at least one PNG file returns
    exit code 0 exactly when every check passes: each file's normalized
    code is accepted by [validate_filename], no two files share a
    normalized code, a fallback code that is not blank has its file in
    the directory, and a configured allowlist can be read and each of
    its codes is the normalized code of some file. *)
Theorem run_succeeds_exactly_when_all_checks_pass
  (args : Args) (fs : FileSystem) (d : Directory) :
  resources fs = ResDirectory d →
  list_png_files d ≠ [] →
  (∃ r, main args fs = Returned r ∧ exit_code r = 0%Z)
  ↔ (∀ p, p ∈ list_png_files d →
          fst (validate_filename (code_of p) (make_config args)) = true)
    ∧ (∀ p q, p ∈ list_png_files d → q ∈ list_png_files d →
              code_of p = code_of q → p = q)
    ∧ (∀ code, arg_require_fallback args = Some code → normalize code ≠ "" →
               child_exists d (normalize code ++ ".png")%string = true)
    ∧ (∀ path, arg_allowlist args = Some path →
               ∃ text, allowlist_file fs = AllowText text
                       ∧ ∀ c, c ∈ read_allowlist text →
                              ∃ p, p ∈ list_png_files d ∧ code_of p = c).
Proof.
  intros Hres Hne.
  rewrite (main_reaches_checks args fs d Hres Hne). cbv zeta.
  rewrite check_allowlist_app, check_fallback_app, dom_seen_codes_of.
  destruct (check_files_inv (make_config args) (list_png_files d))
    as (_ & -> & _).
  change (allowlist_path (make_config args)) with (arg_allowlist args).
  rewrite <- fallback_errors_nil, <- duplicate_errors_all_nil.
  assert ((∀ p, p ∈ list_png_files d →
             fst (validate_filename (code_of p) (make_config args)) = true)
          ∧ (∀ p, p ∈ list_png_files d →
               duplicate_errors (list_png_files d) p = [])
          ↔ flat_map (file_errors (make_config args) (list_png_files d))
              (list_png_files d) = []) as Hloop.
  { rewrite flat_map_eq_nil. unfold file_errors. split.
    - intros [Hv Hd] p Hp. apply app_nil.
      split; [by apply invalid_errors_nil, Hv | by apply Hd].
    - intros H. split; intros p Hp; destruct (proj1 (app_nil _ _) (H p Hp));
        [by apply invalid_errors_nil | done]. }
  unfold allowlist_errors.
  change (allowlist_path (make_config args)) with (arg_allowlist args).
  destruct (arg_allowlist args) as [path|].
  - destruct (allowlist_file fs) as [| |text].
    + split.
      * intros (r & [= <-] & Hc). simpl in Hc.
        apply final_code_zero in Hc.
        by apply app_nil in Hc as [_ ?].
      * intros (_ & _ & _ & H). by destruct (H path eq_refl) as (? & ? & _).
    + split; [by intros (r & ? & _)|].
      intros (_ & _ & _ & H). by destruct (H path eq_refl) as (? & ? & _).
    + split.
      * intros (r & [= <-] & Hc). simpl in Hc.
        apply final_code_zero in Hc.
        rewrite <- !app_assoc in Hc.
        apply app_nil in Hc as [Hl Hc]. apply app_nil in Hc as [Hf Hc].
        apply Hloop in Hl as [Hv Hd]. split_and!; try done.
        intros path' _. exists text. split; [done|].
        intros c Hreq.
        assert (missing_codes (read_allowlist text)
                  (codes_of (list_png_files d)) = []) as Hm
          by (by destruct (missing_codes _ _)).
        pose proof (proj1 (missing_codes_nil _ _) Hm c Hreq) as Hin.
        rewrite <- (dom_seen_codes_of (make_config args)) in Hin.
        by apply dom_seen in Hin.
      * intros (Hv & Hd & Hf & Ha).
        destruct (Ha path eq_refl) as (text' & [= <-] & Hcov).
        eexists. split; [reflexivity|]. simpl. apply final_code_zero.
        rewrite (proj1 Hloop (conj Hv Hd)), Hf. simpl.
        assert (missing_codes (read_allowlist text)
                  (codes_of (list_png_files d)) = []) as ->; [|done].
        apply missing_codes_nil. intros c Hreq.
        rewrite <- (dom_seen_codes_of (make_config args)).
        apply dom_seen. by apply Hcov.
  - split.
    + intros (r & [= <-] & Hc). simpl in Hc. apply final_code_zero in Hc.
      rewrite app_nil_r in Hc. apply app_nil in Hc as [Hl Hf].
      apply Hloop in Hl as [Hv Hd]. by split_and!.
    + intros (Hv & Hd & Hf & _).
      eexists. split; [reflexivity|]. simpl. apply final_code_zero.
      by rewrite (proj1 Hloop (conj Hv Hd)), Hf.
Qed.

Lemma run_succeeds_exactly_when_all_checks_pass_witness :
  ∃ r, main (plain_args false)
         {| resources := ResDirectory (dir_of ["us.png"; "gb.png"]);
            allowlist_file := AllowAbsent |} = Returned r
       ∧ exit_code r = 0%Z.
Proof.
  assert (list_png_files (dir_of ["us.png"; "gb.png"]) = ["gb.png"; "us.png"])
    as Hl by (vm_compute; reflexivity).
  refine (proj2 (run_succeeds_exactly_when_all_checks_pass (plain_args false)
                   {| resources := ResDirectory (dir_of ["us.png"; "gb.png"]);
                      allowlist_file := AllowAbsent |}
                   (dir_of ["us.png"; "gb.png"]) eq_refl _) _).
  - rewrite Hl. intros H. discriminate H.
  - rewrite Hl. split_and!.
    + intros p Hp. apply list_elem_of_In in Hp.
      destruct Hp as [<-|[<-|[]]]; vm_compute; reflexivity.
    + intros p q Hp Hq. apply list_elem_of_In in Hp, Hq.
      destruct Hp as [<-|[<-|[]]], Hq as [<-|[<-|[]]];
        vm_compute; intros H; (reflexivity || discriminate H).
    + intros code H. discriminate H.
    + intros path H. discriminate H.
Defined.

Lemma flat_map_not_nil {A B} (f : A → list B) (l : list A) :
  flat_map f l ≠ [] → ∃ x, x ∈ l ∧ f x ≠ [].
Proof.
  induction l as [|x l IH]; simpl; [done|].
  destruct (f x) as [|b bs] eqn:Hx.
  - intros H. destruct (IH H) as (y & Hy & Hfy). exists y. split; [by right | done].
  - intros _. exists x. split; [by left | by rewrite Hx].
Qed.

(** X10. Among the errors of a run there is a duplicate error exactly
    when two different discovered files have the same normalized
    code. *)
Theorem duplicate_error_exactly_when_codes_collide
  (args : Args) (fs : FileSystem) (r : Result) :
  main args fs = Returned r →
  List.filter is_duplicate_msg (errors r) ≠ []
  ↔ ∃ p q, p ∈ discovered fs ∧ q ∈ discovered fs
           ∧ p ≠ q ∧ code_of p = code_of q.
Proof.
  intros Hrun.
  destruct (main_errors_kinds args fs r Hrun) as (_ & -> & _).
  split.
  - intros Hne. apply flat_map_not_nil in Hne as (p & Hp & Hd).
    unfold duplicate_errors in Hd.
    destruct (first_file (discovered fs) (code_of p)) as [f|] eqn:Hf;
      [|done].
    destruct (first_file_elem _ _ _ Hf) as [Hfin Hc].
    destruct (bool_decide_reflect (f ≠ p)) as [Hfp|]; [|done].
    exists f, p. done.
  - intros (p & q & Hp & Hq & Hpq & Hc) Hnil.
    pose proof (proj1 (flat_map_eq_nil _ _) Hnil) as Hall.
    apply Hpq. by apply (proj1 (duplicate_errors_all_nil (discovered fs)) Hall).
Qed.

Lemma duplicate_error_exactly_when_codes_collide_witness :
  ∃ p q, p ∈ discovered three_cases ∧ q ∈ discovered three_cases
         ∧ p ≠ q ∧ code_of p = code_of q.
Proof.
  refine (proj1 (duplicate_error_exactly_when_codes_collide (plain_args false)
                   three_cases _ names_both_three) _).
  vm_compute. intros H. discriminate H.
Defined.

(** ** The name validator on every code *)

(** X11. In strict mode a code outside the extra-allowed set passes
    exactly when it consists of two lowercase letters, possibly followed
    by one final line feed; every other such code fails with the alpha-2
    reason. *)
Theorem strict_mode_decides_two_letters
  (code : string) (cfg : ValidationConfig) :
  code ∉ extra_allowed_codes cfg →
  strict_alpha2 cfg = true →
  (validate_filename code cfg = (true, None)
   ↔ up_to_final_line_feed two_lowercase_letters code)
  ∧ (¬ up_to_final_line_feed two_lowercase_letters code →
     validate_filename code cfg = (false, Some reason_alpha2)).
Proof.
  intros Hex Hstrict. unfold validate_filename, up_to_final_line_feed.
  rewrite bool_decide_eq_false_2, Hstrict by done.
  rewrite <- ALPHA2_RE_match_spec.
  destruct (Re.ALPHA2_RE_match code); split; by try done.
Qed.

Lemma strict_mode_decides_two_letters_witness :
  validate_filename "usa" (make_config (plain_args true))
  = (false, Some reason_alpha2).
Proof.
  refine (proj2 (strict_mode_decides_two_letters "usa"
                   (make_config (plain_args true)) _ eq_refl) _).
  - apply (bool_decide_eq_false_1 _). vm_compute. reflexivity.
  - intros [H|(t & Ht & H)]; [discriminate H|].
    destruct t as [|a [|b [|c t]]]; try discriminate H.
    discriminate Ht.
Defined.

(** X12. In lenient mode a code outside the extra-allowed set passes
    exactly when it is a lowercase letter or digit followed by lowercase
    letters, digits or hyphens, possibly followed by one final line
    feed; every other such code fails with the key-format reason. *)
Theorem lenient_mode_decides_safe_keys
  (code : string) (cfg : ValidationConfig) :
  code ∉ extra_allowed_codes cfg →
  strict_alpha2 cfg = false →
  (validate_filename code cfg = (true, None)
   ↔ up_to_final_line_feed safe_key code)
  ∧ (¬ up_to_final_line_feed safe_key code →
     validate_filename code cfg = (false, Some reason_key_format)).
Proof.
  intros Hex Hstrict. unfold validate_filename, up_to_final_line_feed.
  rewrite bool_decide_eq_false_2, Hstrict by done.
  rewrite <- DEFAULT_PNG_RE_match_spec.
  destruct (Re.DEFAULT_PNG_RE_match code); split; by try done.
Qed.

Lemma lenient_mode_decides_safe_keys_witness :
  validate_filename "gb-eng" (make_config (plain_args false)) = (true, None).
Proof.
  refine (proj2 (proj1 (lenient_mode_decides_safe_keys "gb-eng"
                          (make_config (plain_args false)) _ eq_refl)) _).
  - apply (bool_decide_eq_false_1 _). vm_compute. reflexivity.
  - left. reflexivity.
Defined.

Lemma invalid_errors_expected cfg p :
  invalid_errors cfg p = expected_invalid cfg p.
Proof.
  unfold invalid_errors, expected_invalid.
  destruct (bool_decide_reflect (code_of p ∈ extra_allowed_codes cfg))
    as [Hin|Hout].
  - unfold validate_filename. by rewrite bool_decide_eq_true_2.
  - unfold code_of in *. rewrite validate_filename_normalized by done.
    destruct (strict_alpha2 cfg).
    + by destruct (two_lowercase_letters _).
    + by destruct (safe_key _).
Qed.

(** X13. In a run, the invalid-filename errors are, in the order of the
    files, one for each discovered file whose normalized code is not
    extra-allowed and is not made of exactly two lowercase letters
    (strict mode), respectively is not a safe key (lenient mode), with
    the reason of that mode.  A final line feed cannot reach the
    patterns, since a normalized code has none. *)
Theorem run_reports_invalid_names_by_the_rules
  (args : Args) (fs : FileSystem) (r : Result) :
  main args fs = Returned r →
  List.filter is_invalid_msg (errors r)
  = flat_map (expected_invalid (make_config args)) (discovered fs).
Proof.
  intros Hrun.
  destruct (main_errors_kinds args fs r Hrun) as (-> & _ & _).
  apply flat_map_ext_elem. intros p _. apply invalid_errors_expected.
Qed.

Lemma mixed_run :
  main (plain_args true) mixed_fs
  = Returned {| exit_code := 2;
                errors := [msg_invalid "flag-1.png" (Some reason_alpha2);
                           msg_invalid "x.png" (Some reason_alpha2)];
                warnings := [msg_non_normalized "US.png" "us"] |}.
Proof. vm_compute. reflexivity. Qed.

Lemma run_reports_invalid_names_by_the_rules_witness :
  List.filter is_invalid_msg
    [msg_invalid "flag-1.png" (Some reason_alpha2);
     msg_invalid "x.png" (Some reason_alpha2)]
  = flat_map (expected_invalid (make_config (plain_args true)))
      (discovered mixed_fs).
Proof.
  exact (run_reports_invalid_names_by_the_rules (plain_args true) mixed_fs
           _ mixed_run).
Defined.

(** ** The extra-allowed set *)

Lemma lower_eq_nil s : Str.lower s = "" ↔ s = "".
Proof. by destruct s. Qed.

(** X14. The extra-allowed set of the configuration holds exactly the
    normalized forms of the [--allow-extra] values that are not blank,
    and the normalized fallback code when a non-empty one is given.
    Every member is in normalized form; the empty code is a member
    only through a fallback code made of white space. *)
Theorem extra_allowed_codes_of_arguments (args : Args) :
  (∀ c, c ∈ extra_allowed_codes (make_config args)
        ↔ (∃ raw, raw ∈ arg_allow_extra args ∧ Str.strip raw ≠ ""
                  ∧ c = normalize raw)
          ∨ (∃ code, arg_require_fallback args = Some code ∧ code ≠ ""
                     ∧ c = normalize code))
  ∧ (∀ c, c ∈ extra_allowed_codes (make_config args) → normalize c = c)
  ∧ ("" ∈ extra_allowed_codes (make_config args)
     ↔ ∃ code, arg_require_fallback args = Some code ∧ code ≠ ""
               ∧ normalize code = "").
Proof.
  assert (∀ c, c ∈ extra_allowed_codes (make_config args)
        ↔ (∃ raw, raw ∈ arg_allow_extra args ∧ Str.strip raw ≠ ""
                  ∧ c = normalize raw)
          ∨ (∃ code, arg_require_fallback args = Some code ∧ code ≠ ""
                     ∧ c = normalize code)) as Hspec.
  { intros c. unfold make_config. simpl.
    assert (c ∈ (list_to_set
                   (map normalize
                      (List.filter (λ c0, truthy (Str.strip c0))
                         (arg_allow_extra args))) : gset string)
            ↔ ∃ raw, raw ∈ arg_allow_extra args ∧ Str.strip raw ≠ ""
                     ∧ c = normalize raw) as Hlist.
    { rewrite elem_of_list_to_set, list_elem_of_In, in_map_iff. split.
      - intros (raw & <- & Hraw). apply filter_In in Hraw as [Hraw Ht].
        exists raw. split_and!; [by apply list_elem_of_In | | done].
        intros He. unfold truthy in Ht. by rewrite He in Ht.
      - intros (raw & Hraw & Hs & ->). exists raw. split; [done|].
        apply filter_In. split; [by apply list_elem_of_In|].
        by apply truthy_true. }
    destruct (arg_require_fallback args) as [code|].
    - unfold truthy at 1.
      destruct (String.eqb_spec code "") as [->|Hcode]; simpl.
      + rewrite Hlist. split; [by left|].
        intros [H|(code & [= <-] & Hne & _)]; [done | by destruct Hne].
      + rewrite elem_of_union, elem_of_singleton, Hlist. split.
        * intros [->|H]; [right; by exists code | by left].
        * intros [H|(code' & [= <-] & _ & ->)]; [by right | by left].
    - rewrite Hlist. split; [by left|]. by intros [H|(code & ? & _)]. }
  split_and!; [done| |].
  - intros c Hc. apply Hspec in Hc as [(raw & _ & _ & ->)|(code & _ & _ & ->)];
      apply normalize_idemp.
  - rewrite Hspec. split.
    + intros [(raw & _ & Hs & He)|(code & Hc & Hne & He)].
      * symmetry in He. unfold normalize in He.
        apply (proj1 (lower_eq_nil _)) in He. by destruct Hs.
      * by exists code.
    + intros (code & Hc & Hne & He). right. by exists code.
Qed.

(** ** The allowlist and fallback checks within a run *)

Lemma main_cases args fs r :
  main args fs = Returned r →
  (∃ msg, r = stopped msg
          ∧ (msg = msg_dir_absent (arg_resources args)
             ∨ msg = msg_not_a_dir (arg_resources args)
             ∨ msg = msg_no_png (arg_resources args)))
  ∨ (∃ d, resources fs = ResDirectory d ∧ list_png_files d ≠ []
          ∧ errors r
            = flat_map (file_errors (make_config args) (list_png_files d))
                (list_png_files d)
              ++ fallback_errors (make_config args) d
              ++ allowlist_errors (make_config args) (allowlist_file fs)
                   (codes_of (list_png_files d))
          ∧ warnings r
            = flat_map file_warnings (list_png_files d)
              ++ allowlist_warnings (make_config args) (allowlist_file fs)
                   (codes_of (list_png_files d))).
Proof.
  intros Hrun. destruct (resources fs) as [| |d] eqn:Hres.
  - left. unfold main in Hrun. rewrite Hres in Hrun. injection Hrun as <-.
    eexists. split; [reflexivity | by left].
  - left. unfold main in Hrun. rewrite Hres in Hrun. injection Hrun as <-.
    eexists. split; [reflexivity | right; by left].
  - destruct (list_png_files d) as [|p pngs] eqn:Hl.
    + left. unfold main in Hrun. rewrite Hres, Hl in Hrun.
      injection Hrun as <-. eexists. split; [reflexivity | right; by right].
    + right. exists d.
      assert (list_png_files d ≠ []) as Hne by (by rewrite Hl).
      split; [done|]. split; [done|].
      assert (resources fs = ResDirectory d) as Hres' by done.
      rewrite (main_reaches_checks args fs d Hres' Hne) in Hrun.
      cbv zeta in Hrun.
      rewrite check_allowlist_app, check_fallback_app, dom_seen_codes_of in Hrun.
      destruct (check_files_inv (make_config args) (list_png_files d))
        as (_ & Herr & Hwarn).
      rewrite Herr, Hwarn in Hrun.
      destruct (allowlist_path (make_config args)) eqn:Hp;
        destruct (allowlist_file fs) eqn:Haf; try done;
        injection Hrun as <-; cbn [errors warnings];
        unfold allowlist_errors, allowlist_warnings;
        rewrite Hp, <- ?app_assoc; done.
Qed.

Lemma file_errors_not_allowlist cfg pngs :
  Forall not_allowlist_msg (flat_map (file_errors cfg pngs) pngs).
Proof.
  apply Forall_forall. intros e He.
  apply list_elem_of_In, in_flat_map in He as (p & _ & He).
  unfold file_errors, invalid_errors, duplicate_errors in He.
  apply in_app_or in He as [He|He].
  - destruct (validate_filename _ _) as [[] ?]; [done|].
    by destruct He as [<-|[]].
  - destruct (first_file _ _); [|done].
    destruct (bool_decide _); [|done]. by destruct He as [<-|[]].
Qed.

Lemma file_warnings_not_allowlist pngs :
  Forall not_allowlist_msg (flat_map file_warnings pngs).
Proof.
  apply Forall_forall. intros e He.
  apply list_elem_of_In, in_flat_map in He as (p & _ & He).
  unfold file_warnings in He.
  destruct (bool_decide _); [|done]. by destruct He as [<-|[]].
Qed.

Lemma fallback_errors_not_allowlist cfg d :
  Forall not_allowlist_msg (fallback_errors cfg d).
Proof.
  unfold fallback_errors, check_fallback.
  destruct (require_fallback_code cfg) as [code|]; [|done].
  destruct (truthy code); [|done].
  destruct (child_exists d _); [done|]. by repeat constructor.
Qed.

Lemma not_allowlist_msg_filters (l : list string) :
  Forall not_allowlist_msg l →
  List.filter is_missing_msg l = [] ∧ List.filter is_extra_msg l = [].
Proof.
  intros H. split; apply filter_none;
    (eapply Forall_impl; [exact H|]); intros e [H1 H2].
  - exact H1.
  - exact H2.
Qed.

Lemma stopped_not_allowlist args msg :
  msg = msg_dir_absent (arg_resources args)
  ∨ msg = msg_not_a_dir (arg_resources args)
  ∨ msg = msg_no_png (arg_resources args) →
  is_missing_msg msg = false ∧ is_extra_msg msg = false
  ∧ is_fallback_msg msg = false.
Proof. by intros [->|[->| ->]]. Qed.

(** X15. In a run that reaches the allowlist check with a readable
    allowlist file, the run returns; its only missing-codes error is the
    one that lists, sorted and each once, the required codes that no
    discovered file normalizes to, and there is none when every required
    code is covered; its only extras warning is the one for the
    normalized codes of files that the allowlist does not have; no error
    is an extras message. *)
Theorem run_reports_allowlist_coverage
  (args : Args) (fs : FileSystem) (d : Directory) (path text : string) :
  arg_allowlist args = Some path →
  allowlist_file fs = AllowText text →
  resources fs = ResDirectory d →
  list_png_files d ≠ [] →
  ∃ r missing extra,
    main args fs = Returned r
    ∧ (∀ c, c ∈ missing
            ↔ c ∈ read_allowlist text
              ∧ ∀ p, p ∈ list_png_files d → code_of p ≠ c)
    ∧ (∀ c, c ∈ extra
            ↔ (∃ p, p ∈ list_png_files d ∧ code_of p = c)
              ∧ c ∉ read_allowlist text)
    ∧ NoDup missing ∧ Sorted Str.le missing
    ∧ NoDup extra ∧ Sorted Str.le extra
    ∧ List.filter is_missing_msg (errors r)
      = match missing with [] => [] | _ => [msg_missing missing] end
    ∧ List.filter is_extra_msg (warnings r)
      = match extra with [] => [] | _ => [msg_extra extra] end
    ∧ List.filter is_extra_msg (errors r) = [].
Proof.
  intros Hpath Htext Hres Hne.
  assert (arg_allowlist args = None ∨ allowlist_file fs ≠ AllowUnreadable)
    as Hal by (right; by rewrite Htext).
  eexists _, (missing_codes (read_allowlist text) (codes_of (list_png_files d))),
    (extra_codes (read_allowlist text) (codes_of (list_png_files d))).
  split; [apply (main_reached args fs d Hres Hne Hal)|].
  cbn [errors warnings].
  destruct (missing_codes_spec (read_allowlist text)
              (codes_of (list_png_files d))) as (Hm & Hmnd & Hms).
  destruct (extra_codes_spec (read_allowlist text)
              (codes_of (list_png_files d))) as (Hx & Hxnd & Hxs).
  destruct (not_allowlist_msg_filters _
              (file_errors_not_allowlist (make_config args) (list_png_files d)))
    as [Hl1 Hl2].
  destruct (not_allowlist_msg_filters _
              (file_warnings_not_allowlist (list_png_files d))) as [_ Hw2].
  destruct (not_allowlist_msg_filters _
              (fallback_errors_not_allowlist (make_config args) d))
    as [Hf1 Hf2].
  unfold allowlist_errors, allowlist_warnings.
  change (allowlist_path (make_config args)) with (arg_allowlist args).
  rewrite Hpath, Htext, !List.filter_app, Hl1, Hl2, Hw2, Hf1, Hf2.
  split_and!; try done.
  - intros c. rewrite Hm, <- (dom_seen_codes_of (make_config args)), dom_seen.
    split.
    + intros [Hreq Hno]. split; [done|]. intros p Hp Hc. apply Hno. by exists p.
    + intros [Hreq Hno]. split; [done|]. intros (p & Hp & Hc). by apply (Hno p).
  - intros c. by rewrite Hx, <- (dom_seen_codes_of (make_config args)), dom_seen.
  - by destruct (missing_codes _ _).
  - by destruct (extra_codes _ _).
  - by destruct (missing_codes _ _).
Qed.

Lemma run_reports_allowlist_coverage_witness :
  ∃ r missing extra,
    main allowlist_args allowlist_fs = Returned r
    ∧ (∀ c, c ∈ missing
            ↔ c ∈ read_allowlist allowlist_text
              ∧ ∀ p, p ∈ list_png_files (dir_of ["us.png"; "gb.png"; "fr.png"]) →
                     code_of p ≠ c)
    ∧ (∀ c, c ∈ extra
            ↔ (∃ p, p ∈ list_png_files (dir_of ["us.png"; "gb.png"; "fr.png"])
                    ∧ code_of p = c)
              ∧ c ∉ read_allowlist allowlist_text)
    ∧ NoDup missing ∧ Sorted Str.le missing
    ∧ NoDup extra ∧ Sorted Str.le extra
    ∧ List.filter is_missing_msg (errors r)
      = match missing with [] => [] | _ => [msg_missing missing] end
    ∧ List.filter is_extra_msg (warnings r)
      = match extra with [] => [] | _ => [msg_extra extra] end
    ∧ List.filter is_extra_msg (errors r) = [].
Proof.
  refine (run_reports_allowlist_coverage allowlist_args allowlist_fs
            (dir_of ["us.png"; "gb.png"; "fr.png"]) "allowed_codes.txt"
            allowlist_text eq_refl eq_refl eq_refl _).
  vm_compute. intros H. discriminate H.
Defined.

Lemma final_code_two (es : list string) : es ≠ [] → final_code es = 2%Z.
Proof. by destruct es. Qed.

(** X16. In a run that reaches the allowlist check with an allowlist
    path whose file does not exist, the run returns exit code 2; its
    last error says that the allowlist file does not exist, and no
    coverage is computed: there is no missing-codes error and no extras
    warning. *)
Theorem missing_allowlist_file_is_one_error
  (args : Args) (fs : FileSystem) (d : Directory) (path : string) :
  arg_allowlist args = Some path →
  allowlist_file fs = AllowAbsent →
  resources fs = ResDirectory d →
  list_png_files d ≠ [] →
  ∃ r, main args fs = Returned r
       ∧ exit_code r = 2%Z
       ∧ last (errors r) = Some (msg_allowlist_absent path)
       ∧ List.filter is_missing_msg (errors r) = []
       ∧ List.filter is_extra_msg (warnings r) = [].
Proof.
  intros Hpath Haf Hres Hne.
  assert (arg_allowlist args = None ∨ allowlist_file fs ≠ AllowUnreadable)
    as Hal by (right; by rewrite Haf).
  eexists. split; [apply (main_reached args fs d Hres Hne Hal)|].
  cbn [exit_code errors warnings].
  unfold allowlist_errors, allowlist_warnings.
  change (allowlist_path (make_config args)) with (arg_allowlist args).
  rewrite Hpath, Haf.
  destruct (not_allowlist_msg_filters _
              (file_errors_not_allowlist (make_config args) (list_png_files d)))
    as [Hl1 _].
  destruct (not_allowlist_msg_filters _
              (file_warnings_not_allowlist (list_png_files d))) as [_ Hw2].
  destruct (not_allowlist_msg_filters _
              (fallback_errors_not_allowlist (make_config args) d))
    as [Hf1 _].
  split_and!.
  - apply final_code_two. rewrite app_assoc. intros H.
    by apply app_nil in H as [_ ?].
  - rewrite app_assoc. apply last_snoc.
  - rewrite !List.filter_app, Hl1, Hf1. reflexivity.
  - rewrite List.filter_app, Hw2. reflexivity.
Qed.

Lemma missing_allowlist_file_is_one_error_witness :
  ∃ r, main allowlist_args absent_allowlist_fs = Returned r
       ∧ exit_code r = 2%Z
       ∧ last (errors r) = Some (msg_allowlist_absent "allowed_codes.txt")
       ∧ List.filter is_missing_msg (errors r) = []
       ∧ List.filter is_extra_msg (warnings r) = [].
Proof.
  refine (missing_allowlist_file_is_one_error allowlist_args absent_allowlist_fs
            (dir_of ["US.png"]) "allowed_codes.txt" eq_refl eq_refl eq_refl _).
  vm_compute. intros H. discriminate H.
Defined.

Lemma allowlist_errors_not_fallback cfg af present :
  List.filter is_fallback_msg (allowlist_errors cfg af present) = [].
Proof.
  unfold allowlist_errors.
  destruct (allowlist_path cfg) as [path|]; [|reflexivity].
  destruct af as [| |text]; [reflexivity | reflexivity |].
  destruct (missing_codes _ _); reflexivity.
Qed.

(** X17. Without a fallback code, or with one that is blank after
    normalization, no run records a missing-fallback error, whatever
    the directory holds. *)
Theorem blank_or_absent_fallback_is_not_checked
  (args : Args) (fs : FileSystem) (r : Result) :
  (arg_require_fallback args = None
   ∨ ∃ code, arg_require_fallback args = Some code ∧ normalize code = "") →
  main args fs = Returned r →
  List.filter is_fallback_msg (errors r) = [].
Proof.
  intros Hfb Hrun.
  destruct (main_cases args fs r Hrun)
    as [(msg & -> & Hmsg)|(d & _ & _ & -> & _)].
  - destruct (stopped_not_allowlist args msg Hmsg) as (_ & _ & Hf).
    simpl. by rewrite Hf.
  - assert (fallback_errors (make_config args) d = []) as ->.
    { apply fallback_errors_nil. intros code Hcode Hn.
      destruct Hfb as [Hnone|(code' & Hcode' & Hblank)]; [congruence|].
      rewrite Hcode in Hcode'. injection Hcode' as <-. by destruct Hn. }
    rewrite !List.filter_app, allowlist_errors_not_fallback.
    rewrite (filter_none _ _ (file_errors_not_fallback (make_config args)
                                (list_png_files d))).
    reflexivity.
Qed.

Lemma blank_or_absent_fallback_is_not_checked_witness :
  List.filter is_fallback_msg (@nil string) = [].
Proof.
  refine (blank_or_absent_fallback_is_not_checked blank_fallback_args
            {| resources := ResDirectory (dir_of ["us.png"]);
               allowlist_file := AllowAbsent |}
            {| exit_code := 0; errors := []; warnings := [] |} _ _).
  - right. exists " ". split; reflexivity.
  - vm_compute. reflexivity.
Defined.

(** ** What an early stop prints *)

(** X18. A run stopped early prints nothing on the standard output and
    exactly three texts on the standard error stream: the errors
    heading, the error of its case as an item (the directory does not
    exist; the path is not a directory; the directory holds no PNG
    file), and the failure notice.  It exits with code 2, also when the
    allowlist file could not be read. *)
Theorem early_stop_prints_one_error (args : Args) (fs : FileSystem) :
  (resources fs = ResAbsent →
   run args fs
   = Some (stop_output (msg_dir_absent (arg_resources args)), 2%Z))
  ∧ (resources fs = ResNotADirectory →
     run args fs
     = Some (stop_output (msg_not_a_dir (arg_resources args)), 2%Z))
  ∧ (∀ d, resources fs = ResDirectory d → list_png_files d = [] →
       run args fs
       = Some (stop_output (msg_no_png (arg_resources args)), 2%Z)).
Proof.
  unfold run, main. split_and!.
  - intros ->. reflexivity.
  - intros ->. reflexivity.
  - intros d -> ->. reflexivity.
Qed.

Lemma early_stop_prints_one_error_witness :
  run demanding_args
    {| resources := ResNotADirectory; allowlist_file := AllowUnreadable |}
  = Some (stop_output (msg_not_a_dir "Resources"), 2%Z).
Proof.
  exact (proj1 (proj2 (early_stop_prints_one_error demanding_args
                         {| resources := ResNotADirectory;
                            allowlist_file := AllowUnreadable |}))
           eq_refl).
Defined.

(** ** The name validator on the codes of a run *)

(** C3. The loop hands [validate_filename] the normalized code of a
    file (lines 170-172), and that is its only call.  In strict mode,
    for every such code outside the extra-allowed set, validation passes
    if and only if the code is exactly two lowercase ASCII letters, and
    any other such code fails with the alpha-2 reason. *)
Theorem strict_mode_two_lowercase_letters
  (raw : string) (cfg : ValidationConfig) :
  normalize raw ∉ extra_allowed_codes cfg →
  strict_alpha2 cfg = true →
  (validate_filename (normalize raw) cfg = (true, None)
   ↔ two_lowercase_letters (normalize raw) = true)
  ∧ (fst (validate_filename (normalize raw) cfg) = true
     ↔ two_lowercase_letters (normalize raw) = true)
  ∧ (two_lowercase_letters (normalize raw) = false →
     validate_filename (normalize raw) cfg = (false, Some reason_alpha2)).
Proof.
  intros Hex Hstrict.
  rewrite (validate_filename_normalized raw cfg Hex), Hstrict.
  destruct (two_lowercase_letters (normalize raw)); split_and!; by try done.
Qed.

Lemma strict_mode_two_lowercase_letters_witness :
  validate_filename (normalize " U2 ") (make_config (plain_args true))
  = (false, Some reason_alpha2).
Proof.
  refine (proj2 (proj2 (strict_mode_two_lowercase_letters " U2 "
                          (make_config (plain_args true)) _ eq_refl)) _).
  - apply (bool_decide_eq_false_1 _). vm_compute. reflexivity.
  - vm_compute. reflexivity.
Defined.

(** C4. In lenient mode, for every normalized code outside the
    extra-allowed set, validation passes if and only if the code starts
    with a lowercase ASCII letter or digit followed by zero or more
    lowercase letters, digits or hyphens, and any other such code fails
    with the key-format reason. *)
Theorem lenient_mode_safe_keys
  (raw : string) (cfg : ValidationConfig) :
  normalize raw ∉ extra_allowed_codes cfg →
  strict_alpha2 cfg = false →
  (validate_filename (normalize raw) cfg = (true, None)
   ↔ safe_key (normalize raw) = true)
  ∧ (fst (validate_filename (normalize raw) cfg) = true
     ↔ safe_key (normalize raw) = true)
  ∧ (safe_key (normalize raw) = false →
     validate_filename (normalize raw) cfg = (false, Some reason_key_format)).
Proof.
  intros Hex Hstrict.
  rewrite (validate_filename_normalized raw cfg Hex), Hstrict.
  destruct (safe_key (normalize raw)); split_and!; by try done.
Qed.

Lemma lenient_mode_safe_keys_witness :
  validate_filename (normalize "GB-eng") (make_config (plain_args false))
  = (true, None).
Proof.
  refine (proj2 (proj1 (lenient_mode_safe_keys "GB-eng"
                          (make_config (plain_args false)) _ eq_refl)) _).
  - apply (bool_decide_eq_false_1 _). vm_compute. reflexivity.
  - vm_compute. reflexivity.
Defined.

(** ** The allowlist check of a run *)

(** C8. In a run that reaches the allowlist check with an allowlist path
    configured and a readable file at it, the run returns and:
    the required codes that no discovered file normalizes to are
    reported in one error, the only one of its kind, which lists all of
    them (sorted, each once), and that error makes the exit code 2;
    there is no such error when every required code is covered.  The
    normalized codes of discovered files that the allowlist does not
    have produce one warning, the only one of its kind, and no error;
    that warning lists the first 80 of them, followed by the suffix
    [...and N more] exactly when there are more than 80, N being the
    number of the others. *)
Theorem allowlist_missing_error_extra_warning
  (args : Args) (fs : FileSystem) (d : Directory) (path text : string) :
  arg_allowlist args = Some path →
  allowlist_file fs = AllowText text →
  resources fs = ResDirectory d →
  list_png_files d ≠ [] →
  ∃ r missing extra,
    main args fs = Returned r
    ∧ (∀ c, c ∈ missing
            ↔ c ∈ read_allowlist text
              ∧ ∀ p, p ∈ list_png_files d → code_of p ≠ c)
    ∧ NoDup missing ∧ Sorted Str.le missing
    ∧ List.filter is_missing_msg (errors r)
      = match missing with
        | [] => []
        | _ => [("Missing PNGs for allowlist codes:" ++ item_sep
                 ++ Str.join item_sep missing)%string]
        end
    ∧ (missing ≠ [] → exit_code r = 2%Z)
    ∧ (∀ c, c ∈ extra
            ↔ (∃ p, p ∈ list_png_files d ∧ code_of p = c)
              ∧ c ∉ read_allowlist text)
    ∧ NoDup extra ∧ Sorted Str.le extra
    ∧ List.filter is_extra_msg (errors r) = []
    ∧ List.filter is_extra_msg (warnings r)
      = match extra with
        | [] => []
        | _ =>
            [("Extra PNGs found not listed in allowlist (may be OK):"
              ++ item_sep ++ Str.join item_sep (firstn 80 extra)
              ++ (if (length extra <=? 80)%nat then ""
                  else NL ++ "  ...and " ++ Str.of_nat (length extra - 80)
                       ++ " more"))%string]
        end
    ∧ (length (firstn 80 extra) ≤ 80)%nat
    ∧ ((length extra ≤ 80)%nat → firstn 80 extra = extra).
Proof.
  intros Hpath Htext Hres Hne.
  assert (arg_allowlist args = None ∨ allowlist_file fs ≠ AllowUnreadable)
    as Hal by (right; by rewrite Htext).
  eexists _, (missing_codes (read_allowlist text) (codes_of (list_png_files d))),
    (extra_codes (read_allowlist text) (codes_of (list_png_files d))).
  split; [apply (main_reached args fs d Hres Hne Hal)|].
  cbn [exit_code errors warnings].
  destruct (missing_codes_spec (read_allowlist text)
              (codes_of (list_png_files d))) as (Hm & Hmnd & Hms).
  destruct (extra_codes_spec (read_allowlist text)
              (codes_of (list_png_files d))) as (Hx & Hxnd & Hxs).
  destruct (not_allowlist_msg_filters _
              (file_errors_not_allowlist (make_config args) (list_png_files d)))
    as [Hl1 Hl2].
  destruct (not_allowlist_msg_filters _
              (file_warnings_not_allowlist (list_png_files d))) as [_ Hw2].
  destruct (not_allowlist_msg_filters _
              (fallback_errors_not_allowlist (make_config args) d))
    as [Hf1 Hf2].
  unfold allowlist_errors, allowlist_warnings.
  change (allowlist_path (make_config args)) with (arg_allowlist args).
  rewrite Hpath, Htext, !List.filter_app, Hl1, Hl2, Hw2, Hf1, Hf2.
  split_and!; try done.
  - intros c. rewrite Hm, <- (dom_seen_codes_of (make_config args)), dom_seen.
    split.
    + intros [Hreq Hno]. split; [done|]. intros p Hp Hc. apply Hno. by exists p.
    + intros [Hreq Hno]. split; [done|]. intros (p & Hp & Hc). by apply (Hno p).
  - destruct (missing_codes _ _); reflexivity.
  - intros Hmiss. apply final_code_two. rewrite app_assoc. intros H.
    apply app_nil in H as [_ H]. by destruct (missing_codes _ _).
  - intros c. by rewrite Hx, <- (dom_seen_codes_of (make_config args)), dom_seen.
  - destruct (missing_codes _ _); reflexivity.
  - destruct (extra_codes _ _); reflexivity.
  - rewrite length_firstn. lia.
  - apply firstn_all2.
Qed.

Lemma allowlist_missing_error_extra_warning_witness :
  ∃ r missing extra,
    main allowlist_args allowlist_fs = Returned r
    ∧ (∀ c, c ∈ missing
            ↔ c ∈ read_allowlist allowlist_text
              ∧ ∀ p, p ∈ list_png_files (dir_of ["us.png"; "gb.png"; "fr.png"]) →
                     code_of p ≠ c)
    ∧ NoDup missing ∧ Sorted Str.le missing
    ∧ List.filter is_missing_msg (errors r)
      = match missing with
        | [] => []
        | _ => [("Missing PNGs for allowlist codes:" ++ item_sep
                 ++ Str.join item_sep missing)%string]
        end
    ∧ (missing ≠ [] → exit_code r = 2%Z)
    ∧ (∀ c, c ∈ extra
            ↔ (∃ p, p ∈ list_png_files (dir_of ["us.png"; "gb.png"; "fr.png"])
                    ∧ code_of p = c)
              ∧ c ∉ read_allowlist allowlist_text)
    ∧ NoDup extra ∧ Sorted Str.le extra
    ∧ List.filter is_extra_msg (errors r) = []
    ∧ List.filter is_extra_msg (warnings r)
      = match extra with
        | [] => []
        | _ =>
            [("Extra PNGs found not listed in allowlist (may be OK):"
              ++ item_sep ++ Str.join item_sep (firstn 80 extra)
              ++ (if (length extra <=? 80)%nat then ""
                  else NL ++ "  ...and " ++ Str.of_nat (length extra - 80)
                       ++ " more"))%string]
        end
    ∧ (length (firstn 80 extra) ≤ 80)%nat
    ∧ ((length extra ≤ 80)%nat → firstn 80 extra = extra).
Proof.
  refine (allowlist_missing_error_extra_warning allowlist_args allowlist_fs
            (dir_of ["us.png"; "gb.png"; "fr.png"]) "allowed_codes.txt"
            allowlist_text eq_refl eq_refl eq_refl _).
  vm_compute. intros H. discriminate H.
Defined.
